(** * got: a content-addressed object store in the git object format

    A shallow embedding of the Go program [got] (commands [init],
    [cat-file -p], [hash-object -w], [ls-tree], [write-tree]) and the
    properties of its object store, tree codec, tree builder and tree
    lister.

    Conventions of the embedding.
    - A Go [string] and a Go [[]byte] are both finite byte sequences:
      [list byte].  The conversions [[]byte(s)] and [string(b)] are the
      identity.
    - The packages of Go's standard library the program calls are modelled
      by what they compute: [crypto/sha1] and [encoding/hex] in full,
      [fmt]'s [%d] verb, [bytes.IndexByte], [sort.Slice]; [compress/zlib]
      is an interface (a codec with its round trip law).
    - The file system is explicit state; [os.Exit] and a run-time panic are
      outcomes of the program.
    - The program is [main.go] in its revision with [writeObject] and
      [writeTree].  The cases [init], [cat-file] and [ls-tree] read the same
      in the revisions before it; their [hash-object] case does in line what
      [writeObject("blob", b)] does, and prints the hash before it writes. *)

From Stdlib Require Import List ZArith Lia Strings.Byte Sorting.Sorted Sorting.Permutation.
From Equations Require Import Equations.
From stdpp Require Import gmap list.
Import ListNotations.

Local Open Scope Z_scope.

(** ** Bytes *)

Abbreviation bytes := (list byte).

Definition bytes_literal (l : list byte) : list byte := l.

Declare Scope bytes_scope.
Delimit Scope bytes_scope with bytes.
String Notation bytes bytes_literal bytes_literal : bytes_scope.

#[global] Instance byte_eq_dec : EqDecision byte := Byte.byte_eq_dec.

#[global] Program Instance byte_countable : Countable byte :=
  inj_countable Byte.to_N Byte.of_N _.
Next Obligation. intros b. apply Byte.of_to_N. Qed.

Definition byte_to_Z (b : byte) : Z := Z.of_N (Byte.to_N b).

(** The low eight bits of [z], as Go's conversion [byte(z)]. *)
Definition byte_of_Z (z : Z) : byte :=
  match Byte.of_N (Z.to_N (z mod 256)) with
  | Some b => b
  | None => x00
  end.

Definition NUL : byte := x00.
Definition SP : byte := x20.
Definition LF : byte := x0a.

(** [bytes.IndexByte(b, c)]: the index of the first [c] in [b]; Go's [-1]
    is [None]. *)
Fixpoint IndexByte (b : bytes) (c : byte) : option nat :=
  match b with
  | [] => None
  | x :: rest =>
      if decide (x = c) then Some 0%nat
      else option_map S (IndexByte rest c)
  end.

(** Go's [<] on strings: lexicographic on the bytes. *)
Fixpoint bytes_ltb (a b : bytes) : bool :=
  match a, b with
  | _, [] => false
  | [], _ :: _ => true
  | x :: a', y :: b' =>
      if byte_to_Z x <? byte_to_Z y then true
      else if byte_to_Z y <? byte_to_Z x then false
      else bytes_ltb a' b'
  end.

(** ** encoding/hex *)

Module hex.

Definition hextable : bytes := "0123456789abcdef"%bytes.

Definition digit (n : Z) : byte := nth (Z.to_nat n) hextable x00.

(** [hex.EncodeToString]: two lowercase digits per byte, high nibble
    first. *)
Definition EncodeToString (src : bytes) : bytes :=
  flat_map (fun b => [digit (Z.shiftr (byte_to_Z b) 4);
                      digit (Z.land (byte_to_Z b) 15)]) src.

(** [fromHexChar]: the value of a digit; both cases of a-f are read. *)
Definition fromHexChar (c : byte) : option Z :=
  let n := byte_to_Z c in
  if (48 <=? n) && (n <=? 57) then Some (n - 48)
  else if (97 <=? n) && (n <=? 102) then Some (n - 97 + 10)
  else if (65 <=? n) && (n <=? 70) then Some (n - 65 + 10)
  else None.

Inductive DecodeError := InvalidByteError (c : byte) | ErrLength.

(** [hex.DecodeString]: pairs of digits; a byte that is no digit is an
    [InvalidByteError], a last digit without partner is [ErrLength]. *)
Fixpoint DecodeString (s : bytes) : DecodeError + bytes :=
  match s with
  | [] => inr []
  | [c] =>
      match fromHexChar c with
      | None => inl (InvalidByteError c)
      | Some _ => inl ErrLength
      end
  | c1 :: c2 :: rest =>
      match fromHexChar c1, fromHexChar c2 with
      | None, _ => inl (InvalidByteError c1)
      | _, None => inl (InvalidByteError c2)
      | Some hi, Some lo =>
          match DecodeString rest with
          | inl e => inl e
          | inr out => inr (byte_of_Z (Z.lor (Z.shiftl hi 4) lo) :: out)
          end
      end
  end.

End hex.

(** ** crypto/sha1 *)

Module sha1.

Definition wrap32 (x : Z) : Z := x mod 2 ^ 32.
Definition add32 (x y : Z) : Z := wrap32 (x + y).
Definition rotl32 (n : Z) (x : Z) : Z :=
  Z.lor (wrap32 (Z.shiftl x n)) (Z.shiftr x (32 - n)).
Definition not32 (x : Z) : Z := Z.lxor x (2 ^ 32 - 1).

(** Big-endian packing of four bytes, and its inverse. *)
Definition be32 (b : bytes) : Z :=
  fold_left (fun acc x => Z.lor (Z.shiftl acc 8) (byte_to_Z x)) b 0.

Definition putUint32 (w : Z) : bytes :=
  [byte_of_Z (Z.shiftr w 24); byte_of_Z (Z.shiftr w 16);
   byte_of_Z (Z.shiftr w 8); byte_of_Z w].

Definition putUint64 (w : Z) : bytes :=
  putUint32 (Z.shiftr w 32) ++ putUint32 w.

(** The message followed by 0x80, zeros up to 56 mod 64, and the length
    in bits as eight bytes. *)
Definition pad (data : bytes) : bytes :=
  let len := Z.of_nat (length data) in
  let zeros := Z.to_nat ((55 - len) mod 64) in
  data ++ [x80] ++ repeat x00 zeros ++ putUint64 (len * 8).

Fixpoint chunks (fuel : nat) (size : nat) (l : bytes) : list bytes :=
  match fuel with
  | O => []
  | S fuel' =>
      match l with
      | [] => []
      | _ => take size l :: chunks fuel' size (drop size l)
      end
  end.

(** The eighty words of the message schedule of one block. *)
Fixpoint schedule (n : nat) (w : list Z) : list Z :=
  match n with
  | O => w
  | S n' =>
      let t := length w in
      let x := Z.lxor (Z.lxor (nth (t - 3) w 0) (nth (t - 8) w 0))
                      (Z.lxor (nth (t - 14) w 0) (nth (t - 16) w 0)) in
      schedule n' (w ++ [rotl32 1 x])
  end.

Record digest := Digest { h0 : Z; h1 : Z; h2 : Z; h3 : Z; h4 : Z }.

Definition init : digest :=
  Digest 0x67452301 0xEFCDAB89 0x98BADCFE 0x10325476 0xC3D2E1F0.

Definition round (t : nat) (wt : Z) (s : digest) : digest :=
  let '(Digest a b c d e) := s in
  let '(f, k) :=
    if (t <? 20)%nat then
      (Z.lor (Z.land b c) (Z.land (not32 b) d), 0x5A827999)
    else if (t <? 40)%nat then
      (Z.lxor (Z.lxor b c) d, 0x6ED9EBA1)
    else if (t <? 60)%nat then
      (Z.lor (Z.lor (Z.land b c) (Z.land b d)) (Z.land c d), 0x8F1BBCDC)
    else
      (Z.lxor (Z.lxor b c) d, 0xCA62C1D6) in
  let tmp := add32 (add32 (add32 (add32 (rotl32 5 a) f) e) wt) k in
  Digest tmp a (rotl32 30 b) c d.

Fixpoint rounds (t : nat) (ws : list Z) (s : digest) : digest :=
  match ws with
  | [] => s
  | wt :: ws' => rounds (S t) ws' (round t wt s)
  end.

Definition block (s : digest) (p : bytes) : digest :=
  let w16 := map be32 (chunks 16 4 p) in
  let s' := rounds 0 (schedule 64 w16) s in
  Digest (add32 (h0 s) (h0 s')) (add32 (h1 s) (h1 s'))
         (add32 (h2 s) (h2 s')) (add32 (h3 s) (h3 s'))
         (add32 (h4 s) (h4 s')).

(** [sha1.Sum]: the 20-byte SHA-1 checksum of [data]. *)
Definition Sum (data : bytes) : bytes :=
  let padded := pad data in
  let s := fold_left block (chunks (length padded) 64 padded) init in
  putUint32 (h0 s) ++ putUint32 (h1 s) ++ putUint32 (h2 s) ++
  putUint32 (h3 s) ++ putUint32 (h4 s).

End sha1.

(** ** fmt: the verb [%d] *)

Module fmt.

Definition decimalDigit (d : nat) : byte := byte_of_Z (48 + Z.of_nat d).

(** [fmtInteger] for a non-negative integer in base 10: digits are
    produced from the least significant one, in front of [buf], while
    [u >= 10]; then the leading digit. *)
Equations? fmtInteger (u : nat) (buf : bytes) : bytes by wf u lt :=
  fmtInteger u buf with le_lt_dec 10 u => {
    | left _ := fmtInteger (u / 10)%nat (decimalDigit (u mod 10)%nat :: buf);
    | right _ := decimalDigit u :: buf }.
Proof. apply Nat.div_lt; lia. Qed.

(** [fmt.Sprintf("%d", n)] for [n >= 0]. *)
Definition Itoa (n : nat) : bytes := fmtInteger n [].

End fmt.


(** ** compress/zlib

    The program writes a whole buffer through [zlib.NewWriter] into a
    [bytes.Buffer] and reads a whole file back through [zlib.NewReader] and
    [io.ReadAll].  The codec is an interface here: what is compressed
    decompresses to itself, and decompression of other input may fail. *)

Class Zlib := {
  zlib_compress : bytes -> bytes;
  zlib_decompress : bytes -> option bytes;
  zlib_decompress_compress : forall b, zlib_decompress (zlib_compress b) = Some b
}.

(** A minimal codec with that interface, to run the program on concrete
    inputs: the two header bytes of a zlib stream, then the data as it
    is. *)
Definition framing_compress (b : bytes) : bytes := x78 :: x9c :: b.

Definition framing_decompress (b : bytes) : option bytes :=
  match b with
  | x78 :: x9c :: rest => Some rest
  | _ => None
  end.

#[global] Instance framing_zlib : Zlib := {|
  zlib_compress := framing_compress;
  zlib_decompress := framing_decompress;
  zlib_decompress_compress := fun b => eq_refl
|}.

(** ** Errors and results *)

Inductive Errno := ENOENT | ENOTDIR | EISDIR | EEXIST.

(** The values of Go's [error] the program meets. *)
Inductive error :=
| errorString (s : bytes)                          (* errors.New *)
| PathError (op : bytes) (path : bytes) (errno : Errno)   (* *fs.PathError *)
| zlibError                                          (* zlib.NewReader, io.ReadAll *)
| hexError (e : hex.DecodeError).                    (* hex.DecodeString *)

(** A Go result pair [(value, err)]: [Err e] is [err != nil]. *)
Inductive result (A : Type) :=
| Ok (a : A)
| Err (e : error).
Arguments Ok {A} a.
Arguments Err {A} e.

(** ** os: the file system

    Files and directories by path, as the program writes the paths.  The
    working directory ["."] always exists.  There are no permissions: an
    operation fails only on what is or is not at a path. *)

Module os.

Record FS := mkFS {
  files : gmap bytes bytes;
  dirs : gset bytes
}.

Definition empty : FS := mkFS ∅ ∅.

Definition isDir (fs : FS) (path : bytes) : bool :=
  if decide (path = "."%bytes) then true else bool_decide (path ∈ dirs fs).

Definition isFile (fs : FS) (path : bytes) : bool :=
  bool_decide (is_Some (files fs !! path)).

(** The path up to its last separator; [None] when it has none. *)
Fixpoint splitDir (path : bytes) : option bytes :=
  match path with
  | [] => None
  | c :: rest =>
      match splitDir rest with
      | Some d => Some (c :: d)
      | None => if decide (c = "/"%byte) then Some [] else None
      end
  end.

(** The directory a path lies in. *)
Definition parent (path : bytes) : bytes :=
  match splitDir path with
  | None => "."%bytes
  | Some d => d
  end.

(** The path and the directories above it, outermost first:
    [".git/objects/ab"] gives [".git"], [".git/objects"],
    [".git/objects/ab"]. *)
Fixpoint ancestors (pre rest : bytes) : list bytes :=
  match rest with
  | [] => [pre]
  | c :: rest' =>
      if decide (c = "/"%byte) then pre :: ancestors (pre ++ [c]) rest'
      else ancestors (pre ++ [c]) rest'
  end.

(** [os.ReadFile]. *)
Definition ReadFile (name : bytes) (fs : FS) : result bytes :=
  match files fs !! name with
  | Some b => Ok b
  | None =>
      if isDir fs name then Err (PathError "read"%bytes name EISDIR)
      else Err (PathError "open"%bytes name ENOENT)
  end.

(** [os.Mkdir]. *)
Definition Mkdir (name : bytes) (fs : FS) : result FS :=
  if isDir fs name || isFile fs name then Err (PathError "mkdir"%bytes name EEXIST)
  else if isDir fs (parent name) then Ok (mkFS (files fs) ({[name]} ∪ dirs fs))
  else if isFile fs (parent name) then Err (PathError "mkdir"%bytes name ENOTDIR)
  else Err (PathError "mkdir"%bytes name ENOENT).

(** [os.MkdirAll]: every directory of [ps], outermost first, is kept when
    it exists and made when it does not; a file in the way is an error, and
    what was made before it stays. *)
Fixpoint mkdirEach (ps : list bytes) (fs : FS) : result unit * FS :=
  match ps with
  | [] => (Ok tt, fs)
  | p :: ps' =>
      if isDir fs p then mkdirEach ps' fs
      else if isFile fs p then (Err (PathError "mkdir"%bytes p ENOTDIR), fs)
      else
        match Mkdir p fs with
        | Ok fs' => mkdirEach ps' fs'
        | Err e => (Err e, fs)
        end
  end.

Definition MkdirAll (path : bytes) (fs : FS) : result unit * FS :=
  mkdirEach (ancestors [] path) fs.

(** [os.WriteFile]: the file is created or truncated, then written whole. *)
Definition WriteFile (name : bytes) (data : bytes) (fs : FS) : result unit * FS :=
  if isDir fs name then (Err (PathError "open"%bytes name EISDIR), fs)
  else if isDir fs (parent name) then (Ok tt, mkFS (<[name := data]> (files fs)) (dirs fs))
  else if isFile fs (parent name) then (Err (PathError "open"%bytes name ENOTDIR), fs)
  else (Err (PathError "open"%bytes name ENOENT), fs).

End os.

(** ** The world of one run *)

(** A call into the file system. *)
Inductive DiskOp :=
| OpReadFile (path : bytes)
| OpReadDir (path : bytes)
| OpLstat (path : bytes)
| OpMkdirAll (path : bytes)
| OpWriteFile (path : bytes).

(** What was written to standard error: plain text, or a prefix and an
    error ([fmt.Fprintf(os.Stderr, "Error: %s\n", err)]). *)
Inductive Diag :=
| DiagText (text : bytes)
| DiagError (prefix : bytes) (e : error).

Record World := mkWorld {
  fs : os.FS;
  disk : list DiskOp;      (* the calls into the file system, oldest first *)
  stdout : bytes;
  stderr : list Diag
}.

Definition startWorld (fs0 : os.FS) : World := mkWorld fs0 [] [] [].

Definition logOp (op : DiskOp) (w : World) : World :=
  mkWorld (fs w) (disk w ++ [op]) (stdout w) (stderr w).

Definition setFS (fs' : os.FS) (w : World) : World :=
  mkWorld fs' (disk w) (stdout w) (stderr w).

Definition printOut (text : bytes) (w : World) : World :=
  mkWorld (fs w) (disk w) (stdout w ++ text) (stderr w).

Definition printErr (d : Diag) (w : World) : World :=
  mkWorld (fs w) (disk w) (stdout w) (stderr w ++ [d]).

(** The file system calls of the program, on the world. *)
Definition ReadFile (name : bytes) (w : World) : result bytes * World :=
  (os.ReadFile name (fs w), logOp (OpReadFile name) w).

Definition MkdirAll (path : bytes) (w : World) : result unit * World :=
  let (r, fs') := os.MkdirAll path (fs w) in
  (r, setFS fs' (logOp (OpMkdirAll path) w)).

Definition WriteFile (name data : bytes) (w : World) : result unit * World :=
  let (r, fs') := os.WriteFile name data (fs w) in
  (r, setFS fs' (logOp (OpWriteFile name) w)).

(** ** The program *)

(** [var gitModes = map[string]string{...}]. *)
Definition gitModes : gmap bytes bytes :=
  list_to_map [
    ("040000"%bytes, "tree"%bytes);
    ("100644"%bytes, "blob"%bytes);
    ("100755"%bytes, "blob"%bytes);
    ("120000"%bytes, "blob"%bytes);
    ("160000"%bytes, "commit"%bytes)
  ].

(** [gitModes[mode]]: indexing a Go map with a key it does not hold gives
    the zero value, the empty string. *)
Definition gitModesAt (mode : bytes) : bytes := default [] (gitModes !! mode).

Definition computeHash (data : bytes) : bytes :=
  hex.EncodeToString (sha1.Sum data).

Definition sha1toHex (sha1sum : bytes) : bytes :=
  hex.EncodeToString sha1sum.

(** The package's [type TreeEntry struct]. *)
Record TreeEntry := mkTreeEntry {
  Mode : bytes;
  Name : bytes;
  Hash : bytes
}.

(** [fmt.Sprintf("%s %d\x00", objectType, len(content))] followed by the
    content: [fullContent] of [writeObject]. *)
Definition objectHeader (objectType : bytes) (content : bytes) : bytes :=
  objectType ++ [SP] ++ fmt.Itoa (length content) ++ [NUL].

Definition fullContent (objectType : bytes) (content : bytes) : bytes :=
  objectHeader objectType content ++ content.

(** [fmt.Sprintf(".git/objects/%s", hash[:2])] and
    [fmt.Sprintf("%s/%s", dir, hash[2:])]. *)
Definition objectDir (hash : bytes) : bytes :=
  ".git/objects/"%bytes ++ take 2 hash.

Definition objectPath (hash : bytes) : bytes :=
  objectDir hash ++ "/"%bytes ++ drop 2 hash.

(** [func writeObject(objectType string, content []byte) (string, error)].
    Writing to a [bytes.Buffer] through the zlib writer does not fail. *)
Definition writeObject `{Zlib} (objectType : bytes) (content : bytes)
    (w : World) : result bytes * World :=
  let full := fullContent objectType content in
  let hash := computeHash full in
  let compressed := zlib_compress full in
  match MkdirAll (objectDir hash) w with
  | (Err e, w1) => (Err e, w1)
  | (Ok _, w1) =>
      match WriteFile (objectPath hash) compressed w1 with
      | (Err e, w2) => (Err e, w2)
      | (Ok _, w2) => (Ok hash, w2)
      end
  end.

(** [sort.Slice(treeEntries, less)] with [less] comparing the names as Go
    strings.  The library's sort is not stable; on names that differ
    pairwise, as the names of one directory do, every sort gives the one
    sorted order.  The model inserts each entry after the entries that are
    not greater. *)
Definition lessName (a b : TreeEntry) : bool := bytes_ltb (Name a) (Name b).

Fixpoint insertEntry (x : TreeEntry) (l : list TreeEntry) : list TreeEntry :=
  match l with
  | [] => [x]
  | y :: l' => if lessName x y then x :: l else y :: insertEntry x l'
  end.

Definition sortSlice (l : list TreeEntry) : list TreeEntry :=
  fold_left (fun acc x => insertEntry x acc) l [].

(** The serialization loop of [writeTree]:
    [<mode> <name>\0<20-byte-hash>] per entry, in the order of the
    slice; a hash that [hex.DecodeString] refuses ends it with the error. *)
Fixpoint treeContent (treeEntries : list TreeEntry) : result bytes :=
  match treeEntries with
  | [] => Ok []
  | entry :: rest =>
      match hex.DecodeString (Hash entry) with
      | inl e => Err (hexError e)
      | inr hashBytes =>
          match treeContent rest with
          | Err e => Err e
          | Ok tail => Ok (Mode entry ++ [SP] ++ Name entry ++ [NUL] ++ hashBytes ++ tail)
          end
      end
  end.

(** What [os.ReadDir], [os.ReadFile] and [DirEntry.Info] give on the
    working tree during one run.  The walk never enters [.git], where
    [writeObject] writes, so what it reads does not change under it.  A
    directory lists its children in the order the system returns them; a
    child that is no directory is read as a file. *)
#[warnings="-register-all"]
Inductive Node :=
| File (content : result bytes) (info : result Z)
| Directory (listing : result (list (bytes * Node))).

(** The permission bits [0111] (octal): execute for user, group, other. *)
Definition execBits : Z := 73.

(** [filepath.Join(dirPath, name)] for a name from a directory listing. *)
Definition Join (dirPath name : bytes) : bytes :=
  if decide (dirPath = "."%bytes) then name else dirPath ++ "/"%bytes ++ name.

Section treeLoop.

Context `{Zlib}.
Variable writeTree : bytes -> Node -> World -> result bytes * World.
Variable dirPath : bytes.

(** The [for _, entry := range entries] loop of [writeTree], with the
    entries gathered so far. *)
Fixpoint gatherEntries (entries : list (bytes * Node)) (treeEntries : list TreeEntry)
    (w : World) : result (list TreeEntry) * World :=
  match entries with
  | [] => (Ok treeEntries, w)
  | (name, child) :: rest =>
      if decide (name = ".git"%bytes) then gatherEntries rest treeEntries w
      else
        let fullPath := Join dirPath name in
        match child with
        | Directory _ =>
            match writeTree fullPath child w with
            | (Err e, w1) => (Err e, w1)
            | (Ok hash, w1) =>
                gatherEntries rest
                  (treeEntries ++ [mkTreeEntry "40000"%bytes name hash]) w1
            end
        | File content info =>
            match content with
            | Err e => (Err e, logOp (OpReadFile fullPath) w)
            | Ok fileContent =>
                match writeObject "blob"%bytes fileContent (logOp (OpReadFile fullPath) w) with
                | (Err e, w1) => (Err e, w1)
                | (Ok hash, w1) =>
                    let mode :=
                      match info with
                      | Ok m => if decide (Z.land m execBits <> 0) then "100755"%bytes
                                else "100644"%bytes
                      | Err _ => "100644"%bytes
                      end in
                    gatherEntries rest
                      (treeEntries ++ [mkTreeEntry mode name hash])
                      (logOp (OpLstat fullPath) w1)
                end
            end
        end
  end.

End treeLoop.

(** [func writeTree(dirPath string) (string, error)], on the node the
    path names. *)
Fixpoint writeTree `{Zlib} (dirPath : bytes) (node : Node) (w : World)
    {struct node} : result bytes * World :=
  match node with
  | File _ _ =>
      (Err (PathError "open"%bytes dirPath ENOTDIR), logOp (OpReadDir dirPath) w)
  | Directory (Err e) => (Err e, logOp (OpReadDir dirPath) w)
  | Directory (Ok entries) =>
      match gatherEntries writeTree dirPath entries [] (logOp (OpReadDir dirPath) w) with
      | (Err e, w1) => (Err e, w1)
      | (Ok treeEntries, w1) =>
          match treeContent (sortSlice treeEntries) with
          | Err e => (Err e, w1)
          | Ok content => writeObject "tree"%bytes content w1
          end
      end
  end.

(** The entry type local to the [ls-tree] case of [main]:
    [type TreeEntry struct { Mode, Type, Hash, Name string }]. *)
Record lsTreeEntry := mkLsTreeEntry {
  lsMode : bytes;
  lsType : bytes;
  lsHash : bytes;
  lsName : bytes
}.

(** One turn of the parse loop of [ls-tree]: the entry at the head of
    [data] and the data after it. *)
Definition parseEntry (data : bytes) : result (lsTreeEntry * bytes) :=
  match IndexByte data SP with
  | None => Err (errorString "malformed entry: missing mode"%bytes)
  | Some spaceIdx =>
      let mode := take spaceIdx data in
      let data := drop (spaceIdx + 1) data in
      match IndexByte data NUL with
      | None => Err (errorString "malformed entry: missing name terminator"%bytes)
      | Some nullIdx =>
          let name := take nullIdx data in
          let data := drop (nullIdx + 1) data in
          if (length data <? 20)%nat then
            Err (errorString "malformed entry: incomplete hash"%bytes)
          else
            let hashBytes := take 20 data in
            let data := drop 20 data in
            Ok (mkLsTreeEntry mode (gitModesAt mode) (sha1toHex hashBytes) name, data)
      end
  end.

(** A value together with the equation that it is the value. *)
Definition inspect {A : Type} (x : A) : {y : A | x = y} := exist _ x eq_refl.

(** [for len(data) > 0 { ... }]: the entries of a tree payload, after those
    already in [entries]; the first malformed entry ends the program with
    its error. *)
Equations? parseEntries (data : bytes) (entries : list lsTreeEntry) :
    result (list lsTreeEntry) by wf (length data) lt :=
  parseEntries [] entries := Ok entries;
  parseEntries (b :: data') entries with inspect (parseEntry (b :: data')) := {
    | exist _ (Err e) _ := Err e;
    | exist _ (Ok (entry, rest)) Hstep := parseEntries rest (entries ++ [entry]) }.
Proof.
  unfold parseEntry in Hstep.
  destruct (IndexByte (b :: data') SP) as [i|]; [|discriminate].
  destruct (IndexByte (drop (i + 1) (b :: data')) NUL) as [j|]; [|discriminate].
  destruct (Nat.ltb_spec (length (drop (j + 1) (drop (i + 1) (b :: data')))) 20);
    [discriminate|].
  injection Hstep as _ <-. rewrite !length_drop in *. lia.
Qed.

(** The output loop of [ls-tree]. *)
Definition lsTreeLine (nameOnly : bool) (entry : lsTreeEntry) : bytes :=
  if nameOnly then lsName entry ++ [LF]
  else lsMode entry ++ [SP] ++ lsType entry ++ [SP] ++ lsHash entry ++ [SP]
       ++ lsName entry ++ [LF].

Definition lsTreeOutput (nameOnly : bool) (entries : list lsTreeEntry) : bytes :=
  flat_map (lsTreeLine nameOnly) entries.

(** How a run ends: [main] returns, [os.Exit(code)], or a run-time panic. *)
Inductive RuntimeError :=
| IndexOutOfRange (index len : nat).

Inductive Status :=
| Returned
| Exited (code : Z)
| Panicked (e : RuntimeError).

Definition Prog := World -> Status * World.

(** [func handleError(err error)] on an error that is not nil. *)
Definition handleError (err : error) : Prog :=
  fun w => (Exited 1, printErr (DiagError "Error: "%bytes err) w).

(** [os.Args[i]]: an index past the end panics. *)
Definition argAt (Args : list bytes) (i : nat) (k : bytes -> Prog) : Prog :=
  match Args !! i with
  | Some a => k a
  | None => fun w => (Panicked (IndexOutOfRange i (length Args)), w)
  end.

(** Reading and inflating the object file of [hash], as both [cat-file]
    and [ls-tree] do; then splitting off the header at the first NUL. *)
Definition readContent `{Zlib} (hash : bytes) (k : bytes -> Prog) : Prog :=
  fun w =>
    let filePath := objectPath hash in
    match ReadFile filePath w with
    | (Err e, w1) => handleError e w1
    | (Ok b, w1) =>
        match zlib_decompress b with
        | None => handleError zlibError w1
        | Some content => k content w1
        end
    end.

Definition afterHeader (content : bytes) (k : bytes -> Prog) : Prog :=
  match IndexByte content NUL with
  | None => handleError (errorString "invalid git object format"%bytes)
  | Some nullIndex => k (drop (nullIndex + 1) content)
  end.

(** [case "init"]: failures are reported and the case goes on. *)
Definition reportErr (prefix : bytes) (r : result unit) (w : World) : World :=
  match r with
  | Ok _ => w
  | Err e => printErr (DiagError prefix e) w
  end.

Definition cmdInit : Prog :=
  fun w =>
    let w :=
      fold_left
        (fun w dir =>
           let (r, w') := MkdirAll dir w in
           reportErr "Error creating directory: "%bytes r w')
        [".git"%bytes; ".git/objects"%bytes; ".git/refs"%bytes] w in
    let headFileContents := "ref: refs/heads/main"%bytes ++ [LF] in
    let (r, w) := WriteFile ".git/HEAD"%bytes headFileContents w in
    let w := reportErr "Error writing file: "%bytes r w in
    (Returned, printOut ("Initialized git directory"%bytes ++ [LF]) w).

(** [case "cat-file"]. *)
Definition cmdCatFile `{Zlib} (Args : list bytes) : Prog :=
  if (length Args <? 4)%nat then
    handleError (errorString "usage: got cat-file -p [<args>...]"%bytes)
  else
    argAt Args 2 (fun flag =>
    if negb (bool_decide (flag = "-p"%bytes)) then
      handleError (errorString "usage: got cat-file -p [<args>...]"%bytes)
    else
    argAt Args 3 (fun hash =>
    if (length hash <? 40)%nat then
      handleError (errorString "invalid hash"%bytes)
    else
    readContent hash (fun content =>
    afterHeader content (fun payload =>
    fun w => (Returned, printOut payload w))))).

(** [case "hash-object"]. *)
Definition cmdHashObject `{Zlib} (Args : list bytes) : Prog :=
  if (length Args <? 4)%nat then
    handleError (errorString "usage: got hash-object [<args>...]"%bytes)
  else
    argAt Args 2 (fun flag =>
    if negb (bool_decide (flag = "-w"%bytes)) then
      handleError (errorString "usage: got hash-object -w [<args>...]"%bytes)
    else
    argAt Args 3 (fun filepath =>
    fun w =>
      match ReadFile filepath w with
      | (Err e, w1) => handleError e w1
      | (Ok b, w1) =>
          match writeObject "blob"%bytes b w1 with
          | (Err e, w2) => handleError e w2
          | (Ok hash, w2) => (Returned, printOut (hash ++ [LF]) w2)
          end
      end)).

(** [case "ls-tree"], from the hash on. *)
Definition lsTree `{Zlib} (nameOnly : bool) (hash : bytes) : Prog :=
  if negb (length hash =? 40)%nat then
    handleError (errorString "invalid hash"%bytes)
  else
    readContent hash (fun content =>
    afterHeader content (fun data =>
    match parseEntries data [] with
    | Err e => handleError e
    | Ok entries => fun w => (Returned, printOut (lsTreeOutput nameOnly entries) w)
    end)).

(** [case "ls-tree"]. *)
Definition cmdLsTree `{Zlib} (Args : list bytes) : Prog :=
  if (length Args <? 3)%nat then
    handleError (errorString "usage: got ls-tree [<args>...] [hash]"%bytes)
  else
    argAt Args 2 (fun a2 =>
    if bool_decide (a2 = "--name-only"%bytes) then
      argAt Args 3 (fun hash => lsTree true hash)
    else
      lsTree false a2).

(** [case "write-tree"]: the tree of the working directory, [cwd]. *)
Definition cmdWriteTree `{Zlib} (cwd : Node) : Prog :=
  fun w =>
    match writeTree "."%bytes cwd w with
    | (Err e, w1) => handleError e w1
    | (Ok hash, w1) => (Returned, printOut (hash ++ [LF]) w1)
    end.

(** [func main()], run with the arguments [Args] in the working directory
    [cwd]. *)
Definition main `{Zlib} (cwd : Node) (Args : list bytes) : Prog :=
  if (length Args <? 2)%nat then
    fun w => (Exited 1, printErr (DiagText ("usage: got <command> [<args>...]"%bytes ++ [LF])) w)
  else
    argAt Args 1 (fun command =>
    if bool_decide (command = "init"%bytes) then cmdInit
    else if bool_decide (command = "cat-file"%bytes) then cmdCatFile Args
    else if bool_decide (command = "hash-object"%bytes) then cmdHashObject Args
    else if bool_decide (command = "ls-tree"%bytes) then cmdLsTree Args
    else if bool_decide (command = "write-tree"%bytes) then cmdWriteTree cwd
    else
      fun w => (Exited 1, printErr (DiagText ("Unknown command "%bytes ++ command ++ [LF])) w)).

(** [case "hash-object"] as [main.go] has it before [writeObject] was
    split off: the envelope is built, hashed and printed, then compressed
    and stored, all in line. *)
Definition cmdHashObjectInline `{Zlib} (Args : list bytes) : Prog :=
  if (length Args <? 4)%nat then
    handleError (errorString "usage: got hash-object [<args>...]"%bytes)
  else
    argAt Args 2 (fun flag =>
    if negb (bool_decide (flag = "-w"%bytes)) then
      handleError (errorString "usage: got hash-object -w [<args>...]"%bytes)
    else
    argAt Args 3 (fun filepath =>
    fun w =>
      match ReadFile filepath w with
      | (Err e, w1) => handleError e w1
      | (Ok b, w1) =>
          let header := "blob "%bytes ++ fmt.Itoa (length b) ++ [NUL] in
          let b := header ++ b in
          let hash := computeHash b in
          let w2 := printOut (hash ++ [LF]) w1 in
          let buf := zlib_compress b in
          let dir := ".git/objects/"%bytes ++ take 2 hash in
          match MkdirAll dir w2 with
          | (Err e, w3) => handleError e w3
          | (Ok _, w3) =>
              let objectPath := dir ++ "/"%bytes ++ drop 2 hash in
              match WriteFile objectPath buf w3 with
              | (Err e, w4) => handleError e w4
              | (Ok _, w4) => (Returned, w4)
              end
          end
      end)).

(** * The vocabulary of the properties *)

(** The digits of [hex.EncodeToString]: 0-9 and a-f. *)
Definition isLowerHex (c : byte) : bool :=
  let n := byte_to_Z c in
  (48 <=? n) && (n <=? 57) || (97 <=? n) && (n <=? 102).

(** The digits 0-9. *)
Definition isDecimalDigit (c : byte) : bool :=
  (48 <=? byte_to_Z c) && (byte_to_Z c <=? 57).

(** The number a string of decimal digits denotes. *)
Definition decimalValue (s : bytes) : nat :=
  fold_left (fun acc c => (10 * acc + Z.to_nat (byte_to_Z c - 48))%nat) s 0%nat.

(** The content "hello\n" and the address of its blob. *)
Definition hello : bytes := "hello"%bytes ++ [LF].

Definition helloAddress : bytes := "ce013625030ba8dba906f756967f9e9ca394464a"%bytes.

(** The world after [hash-object -w] stored the blob of [hello] in an empty
    directory, with the framing codec. *)
Definition helloWorld : World :=
  snd (writeObject (H := framing_zlib) "blob"%bytes hello (startWorld os.empty)).

(** The address the specification's scenario states: 39 digits. *)
Definition statedHelloAddress : bytes := "ce013625030ba8dba906f756967f9e9ca394464"%bytes.

(** Each path lies in the one before it; the first in [prev]. *)
Fixpoint chained (prev : bytes) (ps : list bytes) : Prop :=
  match ps with
  | [] => True
  | p :: ps' => os.parent p = prev /\ chained p ps'
  end.

(** A store is ready for [hash] when no file stands where a directory of
    the object is needed and no directory where its file is. *)
Definition storeReady (fs0 : os.FS) (hash : bytes) : Prop :=
  os.isFile fs0 ".git"%bytes = false
  /\ os.isFile fs0 ".git/objects"%bytes = false
  /\ os.isFile fs0 (objectDir hash) = false
  /\ os.isDir fs0 (objectPath hash) = false.

(** Forty bytes that are no hexadecimal digits, and forty-one that are. *)
Definition notHexAddress : bytes := "zzzzzzzzzzzzzzzzzzzzzzzzzzzzzzzzzzzzzzzz"%bytes.

Definition longAddress : bytes := "ce013625030ba8dba906f756967f9e9ca394464a0"%bytes.

(** A store that holds an empty tree under a name that is no address. *)
Definition notHexWorld : World :=
  startWorld
    (os.mkFS
       {[ objectPath notHexAddress := framing_compress ("tree 0"%bytes ++ [NUL]) ]}
       {[ ".git"%bytes; ".git/objects"%bytes; objectDir notHexAddress ]}).

(** A tree entry as its three fields on disk: the mode, the name, and the
    address as raw bytes. *)
Record rawEntry := mkRawEntry {
  rawMode : bytes;
  rawName : bytes;
  rawHash : bytes
}.

(** The fields end where the parse loop looks for their end. *)
Definition wellFormed (e : rawEntry) : Prop :=
  (SP ∉ rawMode e) /\ (NUL ∉ rawName e) /\ length (rawHash e) = 20%nat.

(** [<mode> <name>\0<20-byte-hash>]. *)
Definition entryBytes (e : rawEntry) : bytes :=
  rawMode e ++ [SP] ++ rawName e ++ [NUL] ++ rawHash e.

(** The entry [ls-tree] makes of the fields. *)
Definition listed (e : rawEntry) : lsTreeEntry :=
  mkLsTreeEntry (rawMode e) (gitModesAt (rawMode e)) (sha1toHex (rawHash e)) (rawName e).

(** Input that is not empty and does not start with a whole entry, with
    the error the parse loop ends with: no space up to the end; a space
    and no NUL after it; a NUL after the space and fewer than 20 bytes
    after the NUL. *)
Inductive truncated : bytes -> error -> Prop :=
| missing_mode (rest : bytes) :
    rest <> [] -> SP ∉ rest ->
    truncated rest (errorString "malformed entry: missing mode"%bytes)
| missing_name_terminator (mode r : bytes) :
    SP ∉ mode -> NUL ∉ r ->
    truncated (mode ++ SP :: r)
      (errorString "malformed entry: missing name terminator"%bytes)
| incomplete_hash (mode name r : bytes) :
    SP ∉ mode -> NUL ∉ name -> (length r < 20)%nat ->
    truncated (mode ++ SP :: name ++ NUL :: r)
      (errorString "malformed entry: incomplete hash"%bytes).

(** A working directory with the file [a.txt] and the empty directory
    [sub], and the store after [write-tree] ran in it. *)
Definition sampleTree : Node :=
  Directory (Ok [("sub"%bytes, Directory (Ok []));
                 ("a.txt"%bytes, File (Ok hello) (Ok 420))]).

Definition sampleStore : os.FS :=
  fs (snd (main (H := framing_zlib) sampleTree ["got"%bytes; "write-tree"%bytes]
             (startWorld os.empty))).

(** The working tree in which every file whose metadata cannot be read is
    a file with the permissions [0644] (420). *)
Fixpoint readableInfo (node : Node) : Node :=
  match node with
  | File content (Err _) => File content (Ok 420)
  | File content (Ok m) => File content (Ok m)
  | Directory (Err e) => Directory (Err e)
  | Directory (Ok entries) =>
      Directory (Ok (map (fun entry => (fst entry, readableInfo (snd entry))) entries))
  end.

(** [a] is not after [b]: the name of [b] is not less than the name of
    [a]. *)
Definition nameLe (a b : TreeEntry) : Prop := lessName b a = false.

(** An entry [writeTree] can serialize so that [ls-tree] reads it back: no
    space in the mode, no NUL in the name, and the address the 40 lowercase
    digits of 20 bytes. *)
Definition wfTreeEntry (e : TreeEntry) : Prop :=
  (SP ∉ Mode e) /\ (NUL ∉ Name e)
  /\ exists hashBytes, length hashBytes = 20%nat /\ Hash e = hex.EncodeToString hashBytes.

(** The entry as [ls-tree] shows it. *)
Definition lsOf (e : TreeEntry) : lsTreeEntry :=
  mkLsTreeEntry (Mode e) (gitModesAt (Mode e)) (Hash e) (Name e).

(** The fields [writeTree] writes for the entry. *)
Definition rawOf (e : TreeEntry) : rawEntry :=
  mkRawEntry (Mode e) (Name e)
    (match hex.DecodeString (Hash e) with inr b => b | inl _ => [] end).

(** Two entries in the order a listing may give them: [sub] before
    [a.txt]. *)
Definition unsortedEntries : list TreeEntry :=
  [mkTreeEntry "40000"%bytes "sub"%bytes "4b825dc642cb6eb9a060e54bf8d69288fbee4904"%bytes;
   mkTreeEntry "100644"%bytes "a.txt"%bytes helloAddress].

(** The mode [writeTree] records for a file. *)
Definition fileMode (info : result Z) : bytes :=
  match info with
  | Ok m => if decide (Z.land m execBits <> 0) then "100755"%bytes else "100644"%bytes
  | Err _ => "100644"%bytes
  end.

(** The entry of one child: its name, and mode and address by its kind. *)
Definition entryRel `{Zlib} (child : bytes * Node) (e : TreeEntry) : Prop :=
  Name e = fst child
  /\ match snd child with
     | Directory _ =>
         Mode e = "40000"%bytes
         /\ exists d w w', writeTree d (snd child) w = (Ok (Hash e), w')
     | File content info =>
         Mode e = fileMode info
         /\ exists fileContent,
              content = Ok fileContent
              /\ Hash e = computeHash (fullContent "blob"%bytes fileContent)
     end.

(** ** The vocabulary of the further properties *)

(** A directory with the file [notes.txt], and a file where [.git] should
    be. *)
Definition blockedWorld : World :=
  startWorld (os.mkFS {[ "notes.txt"%bytes := hello; ".git"%bytes := hello ]} ∅).

(** The commands of [main]. *)
Definition commands : list bytes :=
  ["init"%bytes; "cat-file"%bytes; "hash-object"%bytes; "ls-tree"%bytes; "write-tree"%bytes].

(** The children of [sampleTree], what the walk gathers from them in an
    empty store, and the world after [writeTree]. *)
Definition sampleEntries : list (bytes * Node) :=
  [("sub"%bytes, Directory (Ok []));
   ("a.txt"%bytes, File (Ok hello) (Ok 420))].

Definition sampleGathered : list TreeEntry :=
  [mkTreeEntry "40000"%bytes "sub"%bytes "4b825dc642cb6eb9a060e54bf8d69288fbee4904"%bytes;
   mkTreeEntry "100644"%bytes "a.txt"%bytes helloAddress].

Definition sampleTreeAddress : bytes := "7a470b9a36089343017f7b179b2bec6a56f208e1"%bytes.

Definition sampleWritten : World :=
  snd (writeTree (H := framing_zlib) "."%bytes (Directory (Ok sampleEntries))
         (startWorld os.empty)).

(** The address of the tree without entries. *)
Definition emptyTreeAddress : bytes := "4b825dc642cb6eb9a060e54bf8d69288fbee4904"%bytes.

(** The path of the object file of some address. *)
Definition isObjectPath (p : bytes) : Prop :=
  exists data, p = objectPath (computeHash data).

(** From [w] to [w'] the store only grew: files changed at object paths
    only, no file and no directory went away, and nothing was printed. *)
Definition storeGrew (w w' : World) : Prop :=
  (forall p, ~ isObjectPath p -> os.files (fs w') !! p = os.files (fs w) !! p)
  /\ os.dirs (fs w) ⊆ os.dirs (fs w')
  /\ (forall p, is_Some (os.files (fs w) !! p) -> is_Some (os.files (fs w') !! p))
  /\ stdout w' = stdout w
  /\ stderr w' = stderr w.


(** The content [init] gives [.git/HEAD]. *)
Definition headFileContents : bytes := "ref: refs/heads/main"%bytes ++ [LF].

(** A directory with the one file [notes.txt]. *)
Definition notesWorld : World :=
  startWorld (os.mkFS {[ "notes.txt"%bytes := hello ]} ∅).

(** A store with one object file whose header declares a length that is
    not the length of what follows. *)
Definition mislabelledAddress : bytes := "00112233445566778899aabbccddeeff00112233"%bytes.

Definition mislabelledWorld : World :=
  startWorld
    (os.mkFS
       {[ objectPath mislabelledAddress
            := framing_compress ("blob 999"%bytes ++ [NUL] ++ "hi"%bytes) ]}
       {[ ".git"%bytes; ".git/objects"%bytes; objectDir mislabelledAddress ]}).

(** A store with one tree object that breaks off after one whole entry. *)
Definition truncatedEntries : list rawEntry :=
  [mkRawEntry "100644"%bytes "a.txt"%bytes (sha1.Sum (fullContent "blob"%bytes hello))].

Definition truncatedWorld : World :=
  startWorld
    (os.mkFS
       {[ objectPath mislabelledAddress
            := framing_compress
                 ("tree 40"%bytes ++ [NUL] ++ flat_map entryBytes truncatedEntries
                  ++ "100644"%bytes) ]}
       {[ ".git"%bytes; ".git/objects"%bytes; objectDir mislabelledAddress ]}).


(** A program that leaves files and directories as they are. *)
Definition keepsFiles (p : Prog) : Prop := forall w, fs (snd (p w)) = fs w.

(** A program that does not end in a panic. *)
Definition neverPanics (p : Prog) : Prop := forall w e, fst (p w) <> Panicked e.

(** * Properties *)

(** ** Test vectors *)

Example sha1_empty :
  hex.EncodeToString (sha1.Sum []) = "da39a3ee5e6b4b0d3255bfef95601890afd80709"%bytes.
Proof. vm_compute. reflexivity. Qed.

Example sha1_abc :
  hex.EncodeToString (sha1.Sum "abc"%bytes) = "a9993e364706816aba3e25717850c26c9cd0d89d"%bytes.
Proof. vm_compute. reflexivity. Qed.

Example sha1_two_blocks :
  hex.EncodeToString
    (sha1.Sum "abcdbcdecdefdefgefghfghighijhijkijkljklmklmnlmnomnopnopq"%bytes)
  = "84983e441c3bd26ebaae4aa1f95129e5e54670f1"%bytes.
Proof. vm_compute. reflexivity. Qed.

Example Itoa_0 : fmt.Itoa 0 = "0"%bytes.
Proof. reflexivity. Qed.

Example Itoa_1024 : fmt.Itoa 1024 = "1024"%bytes.
Proof. reflexivity. Qed.

(** The parse loop consumes input at every turn. *)
Lemma parseEntry_shorter (data : bytes) (entry : lsTreeEntry) (rest : bytes) :
  parseEntry data = Ok (entry, rest) -> (length rest < length data)%nat.
Proof.
  unfold parseEntry.
  destruct (IndexByte data SP) as [i|]; [|discriminate].
  destruct (IndexByte (drop (i + 1) data) NUL) as [j|]; [|discriminate].
  destruct (Nat.ltb_spec (length (drop (j + 1) (drop (i + 1) data))) 20); [discriminate|].
  intros [= _ <-]. rewrite !length_drop in *. lia.
Qed.

(** ** Bytes *)

Lemma byte_to_Z_range (b : byte) : 0 <= byte_to_Z b < 256.
Proof.
  unfold byte_to_Z. pose proof (Byte.to_N_bounded b) as Hb. lia.
Qed.

Lemma byte_of_to_Z (b : byte) : byte_of_Z (byte_to_Z b) = b.
Proof.
  unfold byte_of_Z. rewrite Z.mod_small by apply byte_to_Z_range.
  unfold byte_to_Z. rewrite N2Z.id, Byte.of_to_N. reflexivity.
Qed.

Lemma byte_to_of_Z (z : Z) : 0 <= z < 256 -> byte_to_Z (byte_of_Z z) = z.
Proof.
  intros Hz. unfold byte_of_Z. rewrite Z.mod_small by lia.
  destruct (Byte.of_N (Z.to_N z)) as [b|] eqn:Hb.
  - apply Byte.to_of_N in Hb. unfold byte_to_Z. rewrite Hb. lia.
  - apply Byte.of_N_None_iff in Hb. lia.
Qed.

Lemma byte_to_Z_inj (a b : byte) : byte_to_Z a = byte_to_Z b -> a = b.
Proof.
  intros E. rewrite <- (byte_of_to_Z a), <- (byte_of_to_Z b), E. reflexivity.
Qed.

Lemma IndexByte_None (b : bytes) (c : byte) : IndexByte b c = None <-> c ∉ b.
Proof.
  induction b as [|x b IH]; simpl.
  - split; [intros _; apply not_elem_of_nil | reflexivity].
  - destruct (decide (x = c)) as [->|Hne].
    + split; [discriminate | intros Hn; exfalso; apply Hn; left].
    + destruct (IndexByte b c); simpl.
      * split; [discriminate|]. intros Hn. exfalso.
        assert (c ∉ b) as Hb by (intros Hin; apply Hn; right; exact Hin).
        apply IH in Hb. discriminate.
      * split; [|reflexivity]. intros _ Hin.
        apply elem_of_cons in Hin as [->|Hin]; [congruence|].
        destruct IH as [IH _]. apply (IH eq_refl Hin).
Qed.

(** The first occurrence splits the sequence. *)
Lemma IndexByte_app (a b : bytes) (c : byte) :
  c ∉ a -> IndexByte (a ++ (c :: b)) c = Some (length a).
Proof.
  induction a as [|x a IH]; simpl; intros Hn.
  - destruct (decide (c = c)); [reflexivity | congruence].
  - destruct (decide (x = c)) as [->|Hne].
    + exfalso. apply Hn. left.
    + rewrite IH; [reflexivity|]. intros Hin. apply Hn. right. exact Hin.
Qed.

Lemma IndexByte_Some (b : bytes) (c : byte) (i : nat) :
  IndexByte b c = Some i ->
  b = take i b ++ (c :: drop (i + 1) b) /\ (c ∉ take i b) /\ length (take i b) = i.
Proof.
  revert i. induction b as [|x b IH]; simpl; intros i; [discriminate|].
  destruct (decide (x = c)) as [->|Hne].
  - intros [= <-]. simpl. rewrite drop_0. repeat split. apply not_elem_of_nil.
  - destruct (IndexByte b c) as [j|] eqn:Hj; simpl; [|discriminate].
    intros [= <-]. destruct (IH j eq_refl) as (Hb & Hn & Hl). simpl.
    repeat split.
    + f_equal. exact Hb.
    + intros Hin. apply elem_of_cons in Hin as [->|Hin]; [congruence | exact (Hn Hin)].
    + f_equal. exact Hl.
Qed.

Lemma IndexByte_split (b : bytes) (c : byte) (i : nat) :
  IndexByte b c = Some i <->
  exists a r, b = a ++ (c :: r) /\ (c ∉ a) /\ length a = i.
Proof.
  split.
  - intros Hi. apply IndexByte_Some in Hi as (Hb & Hn & Hl).
    exists (take i b), (drop (i + 1) b). auto.
  - intros (a & r & -> & Hn & <-). apply IndexByte_app. exact Hn.
Qed.

(** ** encoding/hex *)

Lemma hex_digits_of_byte (b : byte) :
  hex.fromHexChar (hex.digit (Z.shiftr (byte_to_Z b) 4)) = Some (Z.shiftr (byte_to_Z b) 4)
  /\ hex.fromHexChar (hex.digit (Z.land (byte_to_Z b) 15)) = Some (Z.land (byte_to_Z b) 15)
  /\ byte_of_Z (Z.lor (Z.shiftl (Z.shiftr (byte_to_Z b) 4) 4) (Z.land (byte_to_Z b) 15)) = b
  /\ isLowerHex (hex.digit (Z.shiftr (byte_to_Z b) 4)) = true
  /\ isLowerHex (hex.digit (Z.land (byte_to_Z b) 15)) = true.
Proof. destruct b; vm_compute; repeat split; reflexivity. Qed.

Lemma hex_decode_encode (src : bytes) :
  hex.DecodeString (hex.EncodeToString src) = inr src.
Proof.
  induction src as [|b src IH]; [reflexivity|].
  destruct (hex_digits_of_byte b) as (Hhi & Hlo & Hb & _).
  change (hex.EncodeToString (b :: src))
    with (hex.digit (Z.shiftr (byte_to_Z b) 4)
          :: hex.digit (Z.land (byte_to_Z b) 15) :: hex.EncodeToString src).
  cbn [hex.DecodeString]. rewrite Hhi, Hlo, IH, Hb. reflexivity.
Qed.

Lemma hex_encode_length (src : bytes) :
  length (hex.EncodeToString src) = (2 * length src)%nat.
Proof.
  induction src as [|b src IH]; [reflexivity|].
  change (hex.EncodeToString (b :: src))
    with (hex.digit (Z.shiftr (byte_to_Z b) 4)
          :: hex.digit (Z.land (byte_to_Z b) 15) :: hex.EncodeToString src).
  simpl. rewrite IH. lia.
Qed.

Lemma hex_encode_lower (src : bytes) :
  Forall (fun c => isLowerHex c = true) (hex.EncodeToString src).
Proof.
  induction src as [|b src IH]; [constructor|].
  destruct (hex_digits_of_byte b) as (_ & _ & _ & Hhi & Hlo).
  change (hex.EncodeToString (b :: src))
    with (hex.digit (Z.shiftr (byte_to_Z b) 4)
          :: hex.digit (Z.land (byte_to_Z b) 15) :: hex.EncodeToString src).
  repeat constructor; assumption.
Qed.

Lemma lower_hex_not_slash (s : bytes) :
  Forall (fun c => isLowerHex c = true) s -> "/"%byte ∉ s.
Proof.
  intros Hs Hin. rewrite Forall_forall in Hs.
  specialize (Hs _ Hin). discriminate.
Qed.

(** ** crypto/sha1 *)

Lemma sha1_Sum_length (data : bytes) : length (sha1.Sum data) = 20%nat.
Proof. unfold sha1.Sum. rewrite !length_app. reflexivity. Qed.

Lemma computeHash_length (data : bytes) : length (computeHash data) = 40%nat.
Proof. unfold computeHash. rewrite hex_encode_length, sha1_Sum_length. reflexivity. Qed.

Lemma computeHash_lower (data : bytes) :
  Forall (fun c => isLowerHex c = true) (computeHash data).
Proof. apply hex_encode_lower. Qed.

(** ** fmt *)

Lemma decimalDigit_to_Z (d : nat) :
  (d < 10)%nat -> byte_to_Z (fmt.decimalDigit d) = 48 + Z.of_nat d.
Proof. intros Hd. unfold fmt.decimalDigit. apply byte_to_of_Z. lia. Qed.

Lemma fmtInteger_unfold (u : nat) (buf : bytes) :
  fmt.fmtInteger u buf =
  if le_lt_dec 10 u
  then fmt.fmtInteger (u / 10)%nat (fmt.decimalDigit (u mod 10)%nat :: buf)
  else fmt.decimalDigit u :: buf.
Proof.
  rewrite fmt.fmtInteger_equation_1. unfold fmt.fmtInteger_unfold_clause_1.
  destruct (le_lt_dec 10 u); reflexivity.
Qed.

Lemma fmtInteger_buf (u : nat) (buf : bytes) :
  fmt.fmtInteger u buf = fmt.fmtInteger u [] ++ buf.
Proof.
  revert buf. induction u as [u IH] using lt_wf_ind. intros buf.
  rewrite (fmtInteger_unfold u buf), (fmtInteger_unfold u []).
  destruct (le_lt_dec 10 u) as [Hge|Hlt]; [|reflexivity].
  assert (u / 10 < u)%nat as Hdec by (apply Nat.div_lt; lia).
  rewrite (IH _ Hdec (_ :: buf)), (IH _ Hdec [_]), <- app_assoc. reflexivity.
Qed.

Lemma Itoa_small (n : nat) :
  (n < 10)%nat -> fmt.Itoa n = [fmt.decimalDigit n].
Proof.
  intros Hn. unfold fmt.Itoa. rewrite fmtInteger_unfold.
  destruct (le_lt_dec 10 n); [lia | reflexivity].
Qed.

Lemma Itoa_large (n : nat) :
  (10 <= n)%nat -> fmt.Itoa n = fmt.Itoa (n / 10) ++ [fmt.decimalDigit (n mod 10)].
Proof.
  intros Hn. unfold fmt.Itoa. rewrite fmtInteger_unfold.
  destruct (le_lt_dec 10 n); [|lia]. apply fmtInteger_buf.
Qed.

Lemma Itoa_digits (n : nat) : Forall (fun c => isDecimalDigit c = true) (fmt.Itoa n).
Proof.
  induction n as [n IH] using lt_wf_ind.
  assert (forall d, (d < 10)%nat -> isDecimalDigit (fmt.decimalDigit d) = true) as Hdig.
  { intros d Hd. unfold isDecimalDigit. rewrite decimalDigit_to_Z by exact Hd.
    apply andb_true_intro. split; apply Z.leb_le; lia. }
  destruct (le_lt_dec 10 n) as [Hge|Hlt].
  - rewrite Itoa_large by exact Hge. apply Forall_app. split.
    + apply IH. apply Nat.div_lt; lia.
    + repeat constructor. apply Hdig. apply Nat.mod_upper_bound. lia.
  - rewrite Itoa_small by exact Hlt. repeat constructor. apply Hdig. exact Hlt.
Qed.

Lemma Itoa_value (n : nat) : decimalValue (fmt.Itoa n) = n.
Proof.
  induction n as [n IH] using lt_wf_ind.
  destruct (le_lt_dec 10 n) as [Hge|Hlt].
  - rewrite Itoa_large by exact Hge. unfold decimalValue in *.
    rewrite fold_left_app, IH by (apply Nat.div_lt; lia).
    cbn [fold_left].
    rewrite decimalDigit_to_Z by (apply Nat.mod_upper_bound; lia).
    pose proof (Nat.div_mod_eq n 10). lia.
  - rewrite Itoa_small by exact Hlt. unfold decimalValue. simpl.
    rewrite decimalDigit_to_Z by exact Hlt. lia.
Qed.

Lemma Itoa_leading (n : nat) :
  exists c rest, fmt.Itoa n = c :: rest /\ (c = "0"%byte -> n = 0%nat /\ rest = []).
Proof.
  induction n as [n IH] using lt_wf_ind.
  destruct (le_lt_dec 10 n) as [Hge|Hlt].
  - rewrite Itoa_large by exact Hge.
    destruct (IH (n / 10)%nat) as (c & rest & -> & Hc); [apply Nat.div_lt; lia|].
    exists c, (rest ++ [fmt.decimalDigit (n mod 10)]). split; [reflexivity|].
    intros Hz. destruct (Hc Hz) as [Hq _].
    apply Nat.div_small_iff in Hq; lia.
  - rewrite Itoa_small by exact Hlt. exists (fmt.decimalDigit n), []. split; [reflexivity|].
    intros Hz. split; [|reflexivity].
    apply (f_equal byte_to_Z) in Hz. rewrite decimalDigit_to_Z in Hz by exact Hlt.
    change (byte_to_Z "0"%byte) with 48 in Hz. lia.
Qed.

Lemma digits_no_byte (s : bytes) (c : byte) :
  Forall (fun x => isDecimalDigit x = true) s -> isDecimalDigit c = false -> c ∉ s.
Proof.
  intros Hs Hc Hin. rewrite Forall_forall in Hs.
  specialize (Hs _ Hin). congruence.
Qed.

(** ** The file system *)

Lemma isDir_mono (fs1 fs2 : os.FS) (p : bytes) :
  os.dirs fs1 ⊆ os.dirs fs2 -> os.isDir fs1 p = true -> os.isDir fs2 p = true.
Proof.
  unfold os.isDir. intros Hsub. destruct (decide (p = "."%bytes)); [reflexivity|].
  rewrite !bool_decide_eq_true. apply Hsub.
Qed.

Lemma Mkdir_ok (p : bytes) (fs1 fs2 : os.FS) :
  os.Mkdir p fs1 = Ok fs2 ->
  os.files fs2 = os.files fs1 /\ os.dirs fs2 = {[p]} ∪ os.dirs fs1.
Proof.
  unfold os.Mkdir.
  destruct (os.isDir fs1 p || os.isFile fs1 p); [discriminate|].
  destruct (os.isDir fs1 (os.parent p)).
  - intros [= <-]. split; reflexivity.
  - destruct (os.isFile fs1 (os.parent p)); discriminate.
Qed.

Lemma mkdirEach_ok (ps : list bytes) (fs1 fs2 : os.FS) :
  os.mkdirEach ps fs1 = (Ok tt, fs2) ->
  Forall (fun p => os.isDir fs2 p = true) ps
  /\ os.files fs2 = os.files fs1
  /\ os.dirs fs1 ⊆ os.dirs fs2.
Proof.
  revert fs1. induction ps as [|p ps IH]; simpl; intros fs1.
  - intros [= <-]. repeat split; [constructor | reflexivity].
  - destruct (os.isDir fs1 p) eqn:Hd.
    + intros Hrec. destruct (IH _ Hrec) as (Hall & Hf & Hsub).
      repeat split; [constructor | |]; try assumption.
      eapply isDir_mono; eassumption.
    + destruct (os.isFile fs1 p); [discriminate|].
      destruct (os.Mkdir p fs1) as [fs'|e] eqn:Hmk; [|discriminate].
      intros Hrec. destruct (IH _ Hrec) as (Hall & Hf & Hsub).
      apply Mkdir_ok in Hmk as [Hf' Hd'].
      repeat split.
      * constructor; [|exact Hall].
        apply (isDir_mono fs' fs2 p Hsub). unfold os.isDir.
        destruct (decide (p = "."%bytes)); [reflexivity|].
        apply bool_decide_eq_true. rewrite Hd'.
        apply elem_of_union_l, elem_of_singleton. reflexivity.
      * congruence.
      * intros x Hx. apply Hsub. rewrite Hd'. apply elem_of_union_r. exact Hx.
Qed.

(** Where every directory exists already, [MkdirAll] changes nothing. *)
Lemma mkdirEach_idem (ps : list bytes) (fs1 : os.FS) :
  Forall (fun p => os.isDir fs1 p = true) ps -> os.mkdirEach ps fs1 = (Ok tt, fs1).
Proof.
  induction 1 as [|p ps Hp _ IH]; simpl; [reflexivity|].
  rewrite Hp. exact IH.
Qed.

Lemma ancestors_last (pre rest : bytes) : pre ++ rest ∈ os.ancestors pre rest.
Proof.
  revert pre. induction rest as [|c rest IH]; intros pre; simpl.
  - rewrite app_nil_r. left.
  - replace (pre ++ c :: rest) with ((pre ++ [c]) ++ rest) by (rewrite <- app_assoc; reflexivity).
    destruct (decide (c = "/"%byte)); [right|]; apply IH.
Qed.

Lemma ancestors_no_slash (pre rest : bytes) :
  "/"%byte ∉ rest -> os.ancestors pre rest = [pre ++ rest].
Proof.
  revert pre. induction rest as [|c rest IH]; intros pre Hn; simpl.
  - rewrite app_nil_r. reflexivity.
  - destruct (decide (c = "/"%byte)) as [->|Hc].
    + exfalso. apply Hn. left.
    + rewrite IH; [|intros Hin; apply Hn; right; exact Hin].
      rewrite <- app_assoc. reflexivity.
Qed.

Lemma splitDir_None (name : bytes) : "/"%byte ∉ name -> os.splitDir name = None.
Proof.
  induction name as [|c name IH]; [reflexivity|]. intros Hn. simpl.
  rewrite IH by (intros Hin; apply Hn; right; exact Hin).
  destruct (decide (c = "/"%byte)) as [->|Hc]; [|reflexivity].
  exfalso. apply Hn. left.
Qed.

Lemma parent_join (d name : bytes) :
  "/"%byte ∉ name -> os.parent (d ++ "/"%bytes ++ name) = d.
Proof.
  intros Hn. unfold os.parent.
  assert (os.splitDir (d ++ "/"%bytes ++ name) = Some d) as ->; [|reflexivity].
  induction d as [|c d IH]; simpl.
  - rewrite splitDir_None by exact Hn. reflexivity.
  - simpl in IH. rewrite IH. reflexivity.
Qed.

(** ** writeObject *)

Section WriteObject.

Context `{Zlib}.

(** What a successful [writeObject] did. *)
Lemma writeObject_ok (objectType content : bytes) (w w' : World) (hash : bytes) :
  writeObject objectType content w = (Ok hash, w') ->
  hash = computeHash (fullContent objectType content)
  /\ exists fs1,
      os.MkdirAll (objectDir hash) (fs w) = (Ok tt, fs1)
      /\ os.isDir fs1 (objectPath hash) = false
      /\ os.isDir fs1 (os.parent (objectPath hash)) = true
      /\ w' = mkWorld
                (os.mkFS (<[objectPath hash := zlib_compress (fullContent objectType content)]>
                            (os.files fs1)) (os.dirs fs1))
                (disk w ++ [OpMkdirAll (objectDir hash)] ++ [OpWriteFile (objectPath hash)])
                (stdout w) (stderr w).
Proof.
  unfold writeObject, MkdirAll, WriteFile.
  set (h := computeHash (fullContent objectType content)).
  destruct (os.MkdirAll (objectDir h) (fs w)) as [[[]|e] fs1] eqn:Hmk; [|discriminate].
  unfold os.WriteFile. cbn [fs setFS logOp].
  destruct (os.isDir fs1 (objectPath h)) eqn:Hd; [discriminate|].
  destruct (os.isDir fs1 (os.parent (objectPath h))) eqn:Hp.
  - intros [= <- <-]. split; [reflexivity|]. exists fs1.
    repeat split; try assumption.
    unfold setFS, logOp. cbn. rewrite <- app_assoc. reflexivity.
  - destruct (os.isFile fs1 (os.parent (objectPath h))); discriminate.
Qed.

(** The object file a successful [writeObject] leaves. *)
Lemma writeObject_stored (objectType content : bytes) (w w' : World) (hash : bytes) :
  writeObject objectType content w = (Ok hash, w') ->
  os.files (fs w') !! objectPath hash = Some (zlib_compress (fullContent objectType content)).
Proof.
  intros Hw. apply writeObject_ok in Hw as (_ & fs1 & _ & _ & _ & ->).
  cbn. apply lookup_insert_eq.
Qed.

End WriteObject.

(** ** Dispatch in main *)

Section Dispatch.

Context `{Zlib}.

Lemma main_cat_file (cwd : Node) (prog : bytes) (rest : list bytes) :
  main cwd (prog :: "cat-file"%bytes :: rest) = cmdCatFile (prog :: "cat-file"%bytes :: rest).
Proof.
  unfold main, argAt. cbn [length Nat.ltb Nat.leb lookup list_lookup].
  repeat (case_bool_decide; [discriminate|]). case_bool_decide; [reflexivity|congruence].
Qed.

Lemma main_ls_tree (cwd : Node) (prog : bytes) (rest : list bytes) :
  main cwd (prog :: "ls-tree"%bytes :: rest) = cmdLsTree (prog :: "ls-tree"%bytes :: rest).
Proof.
  unfold main, argAt. cbn [length Nat.ltb Nat.leb lookup list_lookup].
  repeat (case_bool_decide; [discriminate|]). case_bool_decide; [reflexivity|congruence].
Qed.

Lemma main_write_tree (cwd : Node) (prog : bytes) (rest : list bytes) :
  main cwd (prog :: "write-tree"%bytes :: rest) = cmdWriteTree cwd.
Proof.
  unfold main, argAt. cbn [length Nat.ltb Nat.leb lookup list_lookup].
  repeat (case_bool_decide; [discriminate|]). case_bool_decide; [reflexivity|congruence].
Qed.

(** [cat-file -p hash] on a hash of at least 40 bytes. *)
Lemma cat_file_p (prog hash : bytes) :
  (40 <= length hash)%nat ->
  cmdCatFile [prog; "cat-file"%bytes; "-p"%bytes; hash] =
  readContent hash (fun content =>
  afterHeader content (fun payload => fun w => (Returned, printOut payload w))).
Proof.
  intros Hlen. unfold cmdCatFile, argAt.
  change (length [prog; "cat-file"%bytes; "-p"%bytes; hash] <? 4)%nat with false.
  cbn [lookup list_lookup].
  rewrite bool_decide_eq_true_2 by reflexivity. cbn [negb].
  destruct (Nat.ltb_spec (length hash) 40) as [|_]; [lia | reflexivity].
Qed.

(** Reading back what [writeObject] stored. *)
Lemma readContent_stored (objectType content hash : bytes) (w0 w : World) (k : bytes -> Prog) :
  writeObject objectType content w0 = (Ok hash, w) ->
  readContent hash k w =
  k (fullContent objectType content) (logOp (OpReadFile (objectPath hash)) w).
Proof.
  intros Hw. unfold readContent, ReadFile, os.ReadFile.
  rewrite (writeObject_stored _ _ _ _ _ Hw), zlib_decompress_compress. reflexivity.
Qed.

End Dispatch.

(** The header ends at the first NUL of the object when the type has
    none. *)
Lemma header_NUL (objectType content : bytes) :
  NUL ∉ objectType ->
  IndexByte (fullContent objectType content) NUL
  = Some (length (objectType ++ [SP] ++ fmt.Itoa (length content))).
Proof.
  intros Hk. unfold fullContent, objectHeader.
  replace ((objectType ++ [SP] ++ fmt.Itoa (length content) ++ [NUL]) ++ content)
    with ((objectType ++ [SP] ++ fmt.Itoa (length content)) ++ (NUL :: content))
    by (rewrite <- !app_assoc; reflexivity).
  apply IndexByte_app. rewrite !not_elem_of_app. repeat split.
  - exact Hk.
  - intros Hin. apply list_elem_of_singleton in Hin. discriminate.
  - apply digits_no_byte; [apply Itoa_digits | reflexivity].
Qed.

Lemma afterHeader_fullContent (objectType content : bytes) (k : bytes -> Prog) :
  NUL ∉ objectType ->
  afterHeader (fullContent objectType content) k = k content.
Proof.
  intros Hk. unfold afterHeader. rewrite header_NUL by exact Hk. f_equal.
  unfold fullContent, objectHeader.
  replace (objectType ++ [SP] ++ fmt.Itoa (length content) ++ [NUL])
    with ((objectType ++ [SP] ++ fmt.Itoa (length content)) ++ [NUL])
    by (rewrite <- !app_assoc; reflexivity).
  apply drop_app_length'. rewrite (length_app _ [NUL]). reflexivity.
Qed.

(** ** The object store *)

Lemma hello_written :
  writeObject (H := framing_zlib) "blob"%bytes hello (startWorld os.empty)
  = (Ok helloAddress, helloWorld).
Proof. vm_compute. reflexivity. Qed.

(** [cat-file -p] after [writeObject]: the content is printed as it was
    stored. *)
Lemma cat_file_after_write `{Zlib} (cwd : Node)
    (prog objectType content hash : bytes) (w0 w : World) :
  NUL ∉ objectType ->
  writeObject objectType content w0 = (Ok hash, w) ->
  main cwd [prog; "cat-file"%bytes; "-p"%bytes; hash] w
    = (Returned, printOut content (logOp (OpReadFile (objectPath hash)) w)).
Proof.
  intros Hnul Hw.
  assert (length hash = 40%nat) as Hlen.
  { apply writeObject_ok in Hw as [-> _]. apply computeHash_length. }
  rewrite main_cat_file, cat_file_p by lia.
  rewrite (readContent_stored _ _ _ _ _ _ Hw).
  rewrite afterHeader_fullContent by exact Hnul. reflexivity.
Qed.

(** C1. Round trip: after [writeObject] stored content under an object
    type without NUL and space (as "blob" and "tree" are), [cat-file -p] on
    the returned address prints exactly the content, and the object it
    inflates holds the type before its first space and the content after
    its first NUL. *)
Theorem write_then_cat_file_round_trip `{Zlib} (cwd : Node)
    (prog objectType content hash : bytes) (w0 w : World) :
  NUL ∉ objectType ->
  SP ∉ objectType ->
  writeObject objectType content w0 = (Ok hash, w) ->
  main cwd [prog; "cat-file"%bytes; "-p"%bytes; hash] w
    = (Returned, printOut content (logOp (OpReadFile (objectPath hash)) w))
  /\ exists stored object,
       os.files (fs w) !! objectPath hash = Some stored
       /\ zlib_decompress stored = Some object
       /\ (exists i, IndexByte object SP = Some i /\ take i object = objectType)
       /\ (exists j, IndexByte object NUL = Some j /\ drop (j + 1) object = content).
Proof.
  intros Hnul Hsp Hw. split.
  - apply (cat_file_after_write cwd prog objectType content hash w0 w Hnul Hw).
  - exists (zlib_compress (fullContent objectType content)), (fullContent objectType content).
    split; [exact (writeObject_stored _ _ _ _ _ Hw)|].
    split; [apply zlib_decompress_compress|]. split.
    + exists (length objectType). unfold fullContent, objectHeader.
      rewrite <- !app_assoc. split.
      * apply (IndexByte_app objectType _ SP Hsp).
      * apply take_app_length.
    + eexists. split; [apply header_NUL; exact Hnul|].
      unfold fullContent, objectHeader.
      replace (objectType ++ [SP] ++ fmt.Itoa (length content) ++ [NUL])
        with ((objectType ++ [SP] ++ fmt.Itoa (length content)) ++ [NUL])
        by (rewrite <- !app_assoc; reflexivity).
      apply drop_app_length'. rewrite (length_app _ [NUL]). reflexivity.
Qed.

Lemma write_then_cat_file_round_trip_witness :
  (NUL ∉ "blob"%bytes)
  /\ (SP ∉ "blob"%bytes)
  /\ writeObject (H := framing_zlib) "blob"%bytes hello (startWorld os.empty)
     = (Ok helloAddress, helloWorld)
  /\ main (H := framing_zlib) (Directory (Ok []))
       ["got"%bytes; "cat-file"%bytes; "-p"%bytes; helloAddress] helloWorld
     = (Returned, printOut hello (logOp (OpReadFile (objectPath helloAddress)) helloWorld)).
Proof.
  assert (NUL ∉ "blob"%bytes) as Hnul by (apply (bool_decide_unpack _); vm_compute; exact I).
  assert (SP ∉ "blob"%bytes) as Hsp by (apply (bool_decide_unpack _); vm_compute; exact I).
  split; [exact Hnul|]. split; [exact Hsp|]. split; [vm_compute; reflexivity|].
  refine (proj1 (write_then_cat_file_round_trip (Directory (Ok [])) "got"%bytes
                   "blob"%bytes hello helloAddress (startWorld os.empty) helloWorld
                   Hnul Hsp _)).
  vm_compute. reflexivity.
Defined.

Lemma isDir_dirs (fs1 fs2 : os.FS) (p : bytes) :
  os.dirs fs1 = os.dirs fs2 -> os.isDir fs1 p = os.isDir fs2 p.
Proof. unfold os.isDir. intros ->. reflexivity. Qed.

(** C8. Determinism and idempotence: after [writeObject] succeeded, the
    same call succeeds again with the same address, and the files and
    directories of the store are what they were after the first call. *)
Theorem writeObject_twice `{Zlib} (objectType content hash : bytes) (w0 w1 : World) :
  writeObject objectType content w0 = (Ok hash, w1) ->
  exists w2,
    writeObject objectType content w1 = (Ok hash, w2)
    /\ fs w2 = fs w1
    /\ os.files (fs w2) !! objectPath hash
       = Some (zlib_compress (fullContent objectType content)).
Proof.
  intros Hw. pose proof (writeObject_stored _ _ _ _ _ Hw) as Hstored.
  apply writeObject_ok in Hw as (Hh & fs1 & Hmk & Hd & Hp & ->).
  unfold os.MkdirAll in Hmk. apply mkdirEach_ok in Hmk as (Hall & _ & _).
  set (full := fullContent objectType content) in *.
  set (fs2 := os.mkFS (<[objectPath hash := zlib_compress full]> (os.files fs1)) (os.dirs fs1)) in *.
  assert (forall p, os.isDir fs2 p = os.isDir fs1 p) as Hsame
    by (intros p; apply isDir_dirs; reflexivity).
  assert (os.mkdirEach (os.ancestors [] (objectDir hash)) fs2 = (Ok tt, fs2)) as Hmk2.
  { apply mkdirEach_idem. eapply Forall_impl; [exact Hall|].
    intros p Hp'. simpl in Hp'. rewrite Hsame. exact Hp'. }
  eexists. unfold writeObject, MkdirAll, WriteFile, os.MkdirAll, os.WriteFile.
  fold full. rewrite <- Hh. cbn [fs setFS logOp]. rewrite Hmk2.
  rewrite !Hsame, Hd, Hp. split; [reflexivity|]. cbn [fs setFS logOp].
  assert (os.mkFS (<[objectPath hash := zlib_compress full]> (os.files fs2)) (os.dirs fs2) = fs2) as ->.
  { unfold fs2. cbn [os.files os.dirs]. rewrite insert_insert_eq. reflexivity. }
  split; [reflexivity | exact Hstored].
Qed.

Lemma writeObject_twice_witness :
  writeObject (H := framing_zlib) "blob"%bytes hello (startWorld os.empty)
    = (Ok helloAddress, helloWorld)
  /\ exists w2,
       writeObject (H := framing_zlib) "blob"%bytes hello helloWorld = (Ok helloAddress, w2)
       /\ fs w2 = fs helloWorld
       /\ os.files (fs w2) !! objectPath helloAddress
          = Some (zlib_compress (fullContent "blob"%bytes hello)).
Proof.
  split; [exact hello_written|].
  exact (writeObject_twice "blob"%bytes hello helloAddress (startWorld os.empty) helloWorld
           hello_written).
Defined.

(** ** Arguments of ls-tree *)

(** C9. [ls-tree --name-only] without a hash: three arguments pass the
    check of the argument count, which alone would end the program with
    its usage error, and [os.Args[3]] panics with an index out of range;
    nothing is read or printed. *)
Theorem ls_tree_name_only_without_hash_panics `{Zlib} (cwd : Node) (prog : bytes) (w : World) :
  main cwd [prog; "ls-tree"%bytes; "--name-only"%bytes] w
    = (Panicked (IndexOutOfRange 3 3), w)
  /\ main cwd [prog; "ls-tree"%bytes] w
    = handleError (errorString "usage: got ls-tree [<args>...] [hash]"%bytes) w.
Proof.
  rewrite !main_ls_tree. unfold cmdLsTree, argAt. split.
  - change (length [prog; "ls-tree"%bytes; "--name-only"%bytes] <? 3)%nat with false.
    cbn [lookup list_lookup]. rewrite bool_decide_eq_true_2 by reflexivity. reflexivity.
  - reflexivity.
Qed.

(** ** The scenario of the blob "hello" *)

Lemma hello_hash : computeHash (fullContent "blob"%bytes hello) = helloAddress.
Proof. vm_compute. reflexivity. Qed.

(** C4, as stated, fails: the address of the blob "hello\n" is not the
    39-digit string of the scenario, and [cat-file -p] on that string ends
    with "invalid hash" and prints nothing. *)
Lemma hello_address_not_as_stated :
  fst (writeObject (H := framing_zlib) "blob"%bytes hello (startWorld os.empty))
    <> Ok statedHelloAddress
  /\ main (H := framing_zlib) (Directory (Ok []))
       ["got"%bytes; "cat-file"%bytes; "-p"%bytes; statedHelloAddress] helloWorld
     = (Exited 1,
        printErr (DiagError "Error: "%bytes (errorString "invalid hash"%bytes)) helloWorld).
Proof.
  split.
  - rewrite hello_written. cbn [fst]. unfold helloAddress, statedHelloAddress.
    intros E. discriminate E.
  - vm_compute. reflexivity.
Qed.

(** C4, amended. [writeObject("blob", "hello\n")] returns the address
    ce013625030ba8dba906f756967f9e9ca394464a; the object stored under it
    inflates to "blob 6\0hello\n", and [cat-file -p] on the address prints
    "hello\n". *)
Theorem hello_blob_round_trip `{Zlib} (cwd : Node) (prog hash : bytes) (w0 w : World) :
  writeObject "blob"%bytes hello w0 = (Ok hash, w) ->
  hash = "ce013625030ba8dba906f756967f9e9ca394464a"%bytes
  /\ (exists stored,
        os.files (fs w) !! ".git/objects/ce/013625030ba8dba906f756967f9e9ca394464a"%bytes
          = Some stored
        /\ zlib_decompress stored = Some ("blob 6"%bytes ++ [NUL] ++ "hello"%bytes ++ [LF]))
  /\ main cwd [prog; "cat-file"%bytes; "-p"%bytes; hash] w
     = (Returned, printOut ("hello"%bytes ++ [LF]) (logOp (OpReadFile (objectPath hash)) w)).
Proof.
  intros Hw.
  assert (hash = helloAddress) as Hh.
  { apply writeObject_ok in Hw as [-> _]. exact hello_hash. }
  split; [exact Hh|]. split.
  - exists (zlib_compress (fullContent "blob"%bytes hello)).
    split; [|apply zlib_decompress_compress].
    pose proof (writeObject_stored _ _ _ _ _ Hw) as Hs. rewrite Hh in Hs. exact Hs.
  - apply (cat_file_after_write cwd prog "blob"%bytes hello hash w0 w); [|exact Hw].
    apply (bool_decide_unpack _). vm_compute. exact I.
Qed.

Lemma hello_blob_round_trip_witness :
  writeObject (H := framing_zlib) "blob"%bytes hello (startWorld os.empty)
    = (Ok helloAddress, helloWorld)
  /\ main (H := framing_zlib) (Directory (Ok []))
       ["got"%bytes; "cat-file"%bytes; "-p"%bytes; helloAddress] helloWorld
     = (Returned,
        printOut ("hello"%bytes ++ [LF]) (logOp (OpReadFile (objectPath helloAddress)) helloWorld)).
Proof.
  split; [exact hello_written|].
  exact (proj2 (proj2 (hello_blob_round_trip (Directory (Ok [])) "got"%bytes helloAddress
                         (startWorld os.empty) helloWorld hello_written))).
Defined.

(** ** When writeObject succeeds *)

Lemma isFile_files (fs1 fs2 : os.FS) (p : bytes) :
  os.files fs1 = os.files fs2 -> os.isFile fs1 p = os.isFile fs2 p.
Proof. unfold os.isFile. intros ->. reflexivity. Qed.

Lemma mkdirEach_succeeds (ps : list bytes) (prev : bytes) (fs1 : os.FS) :
  os.isDir fs1 prev = true ->
  chained prev ps ->
  Forall (fun p => os.isFile fs1 p = false) ps ->
  exists fs2,
    os.mkdirEach ps fs1 = (Ok tt, fs2)
    /\ forall q, os.isDir fs2 q = true -> os.isDir fs1 q = true \/ q ∈ ps.
Proof.
  revert prev fs1. induction ps as [|p ps IH]; intros prev fs1 Hprev Hch Hnf; simpl.
  - exists fs1. split; [reflexivity|]. intros q Hq. left. exact Hq.
  - destruct Hch as [Hpar Hch]. apply Forall_cons in Hnf as [Hp Hnf].
    destruct (os.isDir fs1 p) eqn:Hd.
    + destruct (IH p fs1 Hd Hch Hnf) as (fs2 & -> & Hnew).
      exists fs2. split; [reflexivity|]. intros q Hq.
      destruct (Hnew q Hq) as [?|?]; [left | right; right]; assumption.
    + rewrite Hp. unfold os.Mkdir. rewrite Hd, Hp, Hpar, Hprev. cbn [orb].
      set (fs' := os.mkFS (os.files fs1) ({[p]} ∪ os.dirs fs1)).
      assert (os.isDir fs' p = true) as Hd'.
      { unfold os.isDir. destruct (decide (p = "."%bytes)); [reflexivity|].
        apply bool_decide_eq_true. apply elem_of_union_l, elem_of_singleton. reflexivity. }
      assert (Forall (fun q => os.isFile fs' q = false) ps) as Hnf'.
      { eapply Forall_impl; [exact Hnf|]. intros q Hq. simpl in Hq.
        rewrite <- Hq. apply isFile_files. reflexivity. }
      destruct (IH p fs' Hd' Hch Hnf') as (fs2 & -> & Hnew).
      exists fs2. split; [reflexivity|]. intros q Hq.
      destruct (Hnew q Hq) as [Hq'|Hq']; [|right; right; exact Hq'].
      unfold os.isDir in Hq' |- *. destruct (decide (q = "."%bytes)); [left; reflexivity|].
      apply bool_decide_eq_true in Hq'. cbn [os.dirs fs'] in Hq'.
      apply elem_of_union in Hq' as [Hq'|Hq'].
      * apply elem_of_singleton in Hq'. subst q. right. left.
      * left. apply bool_decide_eq_true. exact Hq'.
Qed.

Lemma objectDir_ancestors (hash : bytes) :
  "/"%byte ∉ take 2 hash ->
  os.ancestors [] (objectDir hash)
  = [".git"%bytes; ".git/objects"%bytes; objectDir hash].
Proof.
  intros Hn. unfold objectDir.
  change (os.ancestors [] (".git/objects/"%bytes ++ take 2 hash))
    with (".git"%bytes :: ".git/objects"%bytes
          :: os.ancestors ".git/objects/"%bytes (take 2 hash)).
  rewrite ancestors_no_slash by exact Hn. reflexivity.
Qed.

Lemma objectDir_chained (hash : bytes) :
  "/"%byte ∉ take 2 hash ->
  chained "."%bytes [".git"%bytes; ".git/objects"%bytes; objectDir hash].
Proof.
  intros Hn. repeat split.
  apply (parent_join ".git/objects"%bytes (take 2 hash) Hn).
Qed.

Lemma objectPath_parent (hash : bytes) :
  "/"%byte ∉ drop 2 hash -> os.parent (objectPath hash) = objectDir hash.
Proof. intros Hn. apply (parent_join (objectDir hash) (drop 2 hash) Hn). Qed.

Lemma objectPath_not_ancestor (hash : bytes) :
  objectPath hash ∉ [".git"%bytes; ".git/objects"%bytes; objectDir hash].
Proof.
  rewrite !not_elem_of_cons. repeat split; try discriminate.
  - unfold objectPath. intros E.
    rewrite <- (app_nil_r (objectDir hash)) in E at 2.
    apply app_inv_head in E. discriminate.
  - apply not_elem_of_nil.
Qed.

Lemma writeObject_succeeds `{Zlib} (objectType content : bytes) (w : World) :
  storeReady (fs w) (computeHash (fullContent objectType content)) ->
  exists w', writeObject objectType content w
             = (Ok (computeHash (fullContent objectType content)), w').
Proof.
  set (h := computeHash (fullContent objectType content)).
  intros (Hgit & Hobj & Hdir & Hpath).
  pose proof (computeHash_lower (fullContent objectType content)) as Hlow. fold h in Hlow.
  assert ("/"%byte ∉ take 2 h) as Hn2.
  { apply lower_hex_not_slash. apply Forall_take. exact Hlow. }
  assert ("/"%byte ∉ drop 2 h) as Hn38.
  { apply lower_hex_not_slash. apply Forall_drop. exact Hlow. }
  destruct (mkdirEach_succeeds [".git"%bytes; ".git/objects"%bytes; objectDir h]
              "."%bytes (fs w)) as (fs1 & Hmk & Hnew).
  { reflexivity. }
  { apply objectDir_chained. exact Hn2. }
  { repeat constructor; assumption. }
  pose proof (mkdirEach_ok _ _ _ Hmk) as (Hall & _ & _).
  unfold writeObject, MkdirAll, WriteFile, os.MkdirAll, os.WriteFile. fold h.
  rewrite objectDir_ancestors by exact Hn2. rewrite Hmk. cbn [fs setFS logOp].
  assert (os.isDir fs1 (objectPath h) = false) as ->.
  { destruct (os.isDir fs1 (objectPath h)) eqn:Hd; [|reflexivity].
    destruct (Hnew _ Hd) as [Hold|Hin]; [congruence|].
    exfalso. exact (objectPath_not_ancestor h Hin). }
  rewrite objectPath_parent by exact Hn38.
  assert (os.isDir fs1 (objectDir h) = true) as ->.
  { rewrite Forall_forall in Hall. apply Hall. right. right. left. }
  eexists. reflexivity.
Qed.

(** C2. The envelope, the address and the path of [writeObject]: the
    envelope is the type, a space, the length of the content in decimal
    digits without leading zero ("0" for 0), a NUL, and the content; a
    successful call returns the hexadecimal SHA-1 of the envelope, 40
    digits, and leaves the compressed envelope in the file named by the
    digits after the second in the directory named by the first two under
    .git/objects, a directory that then exists; and the call succeeds
    wherever no file is in the way of these directories and no directory
    in the way of the file. *)
Theorem writeObject_envelope_address_path `{Zlib} (objectType content : bytes) (w : World) :
  let n := length content in
  let envelope := objectType ++ [SP] ++ fmt.Itoa n ++ [NUL] ++ content in
  let address := hex.EncodeToString (sha1.Sum envelope) in
  Forall (fun c => isDecimalDigit c = true) (fmt.Itoa n)
  /\ decimalValue (fmt.Itoa n) = n
  /\ (n = 0%nat -> fmt.Itoa n = "0"%bytes)
  /\ (n <> 0%nat -> head (fmt.Itoa n) <> Some "0"%byte)
  /\ length address = 40%nat
  /\ (forall hash w',
        writeObject objectType content w = (Ok hash, w') ->
        hash = address
        /\ os.files (fs w') !! (".git/objects/"%bytes ++ take 2 address ++ "/"%bytes ++ drop 2 address)
           = Some (zlib_compress envelope)
        /\ os.isDir (fs w') (".git/objects/"%bytes ++ take 2 address) = true)
  /\ (storeReady (fs w) address ->
      exists w', writeObject objectType content w = (Ok address, w')).
Proof.
  intros n envelope address.
  assert (fullContent objectType content = envelope) as Henv.
  { unfold fullContent, objectHeader, envelope. rewrite <- !app_assoc. reflexivity. }
  assert (computeHash (fullContent objectType content) = address) as Haddr.
  { unfold computeHash, address. rewrite Henv. reflexivity. }
  split; [apply Itoa_digits|]. split; [apply Itoa_value|].
  split; [intros ->; reflexivity|]. split.
  { intros Hn. destruct (Itoa_leading n) as (c & rest & -> & Hc). simpl.
    intros [= ->]. destruct (Hc eq_refl) as [Hz _]. exact (Hn Hz). }
  split; [rewrite <- Haddr; apply computeHash_length|]. split.
  - intros hash w' Hw. pose proof (writeObject_stored _ _ _ _ _ Hw) as Hs.
    apply writeObject_ok in Hw as (Hh & fs1 & Hmk & _ & _ & ->).
    rewrite Haddr in Hh. subst hash. split; [reflexivity|].
    rewrite Henv in Hs |- *. split; [exact Hs|].
    unfold os.MkdirAll in Hmk. apply mkdirEach_ok in Hmk as (Hall & _ & _).
    rewrite Forall_forall in Hall.
    cbn [fs]. erewrite isDir_dirs; [apply Hall|reflexivity].
    apply (ancestors_last [] (objectDir address)).
  - rewrite <- Haddr. apply writeObject_succeeds.
Qed.

Lemma writeObject_envelope_address_path_witness :
  storeReady (fs (startWorld os.empty))
    (hex.EncodeToString
       (sha1.Sum ("blob"%bytes ++ [SP] ++ fmt.Itoa (length hello) ++ [NUL] ++ hello)))
  /\ exists w',
       writeObject (H := framing_zlib) "blob"%bytes hello (startWorld os.empty)
       = (Ok (hex.EncodeToString
                (sha1.Sum ("blob"%bytes ++ [SP] ++ fmt.Itoa (length hello) ++ [NUL] ++ hello))),
          w').
Proof.
  assert (storeReady (fs (startWorld os.empty))
            (hex.EncodeToString
               (sha1.Sum ("blob"%bytes ++ [SP] ++ fmt.Itoa (length hello) ++ [NUL] ++ hello))))
    as Hready by (repeat split; vm_compute; reflexivity).
  split; [exact Hready|].
  exact (proj2 (proj2 (proj2 (proj2 (proj2 (proj2
           (writeObject_envelope_address_path (H := framing_zlib) "blob"%bytes hello
              (startWorld os.empty))))))) Hready).
Defined.

(** ** Validation of addresses *)

(** C5, as stated, fails: a string of 40 bytes that are no hexadecimal
    digits is not refused by [ls-tree]: its file is looked up, and listed
    where it exists; and [cat-file] looks up a string of 41 bytes. *)
Lemma address_not_validated :
  main (H := framing_zlib) (Directory (Ok []))
    ["got"%bytes; "ls-tree"%bytes; notHexAddress] (startWorld os.empty)
  = (Exited 1,
     printErr (DiagError "Error: "%bytes
                 (PathError "open"%bytes (objectPath notHexAddress) ENOENT))
       (logOp (OpReadFile (objectPath notHexAddress)) (startWorld os.empty)))
  /\ main (H := framing_zlib) (Directory (Ok []))
       ["got"%bytes; "ls-tree"%bytes; notHexAddress] notHexWorld
     = (Returned, logOp (OpReadFile (objectPath notHexAddress)) notHexWorld)
  /\ main (H := framing_zlib) (Directory (Ok []))
       ["got"%bytes; "cat-file"%bytes; "-p"%bytes; longAddress] (startWorld os.empty)
     = (Exited 1,
        printErr (DiagError "Error: "%bytes
                    (PathError "open"%bytes (objectPath longAddress) ENOENT))
          (logOp (OpReadFile (objectPath longAddress)) (startWorld os.empty))).
Proof. repeat split; vm_compute; reflexivity. Qed.

Section Validation.

Context `{Zlib}.

(** What [cat-file] and [ls-tree] do after the check of the length: one
    file is read, and nothing else of the file system is touched. *)
Lemma readContent_disk (hash : bytes) (k : bytes -> Prog) (w : World) :
  (forall content w1, disk (snd (k content w1)) = disk w1) ->
  disk (snd (readContent hash k w)) = disk w ++ [OpReadFile (objectPath hash)].
Proof.
  intros Hk. unfold readContent, ReadFile.
  destruct (os.ReadFile (objectPath hash) (fs w)) as [b|e]; [|reflexivity].
  destruct (zlib_decompress b) as [content|]; [|reflexivity].
  rewrite Hk. reflexivity.
Qed.

Lemma afterHeader_disk (content : bytes) (k : bytes -> Prog) (w : World) :
  (forall payload w1, disk (snd (k payload w1)) = disk w1) ->
  disk (snd (afterHeader content k w)) = disk w.
Proof.
  intros Hk. unfold afterHeader.
  destruct (IndexByte content NUL); [apply Hk | reflexivity].
Qed.

Lemma lsTree_rejects (nameOnly : bool) (hash : bytes) (w : World) :
  length hash <> 40%nat ->
  lsTree nameOnly hash w = handleError (errorString "invalid hash"%bytes) w.
Proof.
  intros Hlen. unfold lsTree.
  destruct (Nat.eqb_spec (length hash) 40); [contradiction | reflexivity].
Qed.

Lemma lsTree_reads (nameOnly : bool) (hash : bytes) (w : World) :
  length hash = 40%nat ->
  disk (snd (lsTree nameOnly hash w)) = disk w ++ [OpReadFile (objectPath hash)].
Proof.
  intros Hlen. unfold lsTree. rewrite Hlen. cbn [Nat.eqb negb].
  apply readContent_disk. intros content w1.
  apply afterHeader_disk. intros payload w2.
  destruct (parseEntries payload []); reflexivity.
Qed.

Lemma main_ls_tree_hash (cwd : Node) (prog hash : bytes) :
  hash <> "--name-only"%bytes ->
  main cwd [prog; "ls-tree"%bytes; hash] = lsTree false hash.
Proof.
  intros Hne. rewrite main_ls_tree. unfold cmdLsTree, argAt.
  change (length [prog; "ls-tree"%bytes; hash] <? 3)%nat with false.
  cbn [lookup list_lookup]. rewrite bool_decide_eq_false_2 by exact Hne. reflexivity.
Qed.

Lemma main_ls_tree_name_only (cwd : Node) (prog hash : bytes) :
  main cwd [prog; "ls-tree"%bytes; "--name-only"%bytes; hash] = lsTree true hash.
Proof.
  rewrite main_ls_tree. unfold cmdLsTree, argAt.
  change (length [prog; "ls-tree"%bytes; "--name-only"%bytes; hash] <? 3)%nat with false.
  cbn [lookup list_lookup]. rewrite bool_decide_eq_true_2 by reflexivity. reflexivity.
Qed.

(** C5, amended. An address shorter than 40 bytes is refused with
    "invalid hash" by [cat-file] and by [ls-tree] before the file system
    is touched, and [ls-tree] refuses every address whose length is not
    40; no byte is checked for being a hexadecimal digit: an address of 40
    bytes of any kind is looked up in the store by both. *)
Theorem address_length_checked (cwd : Node) (prog hash : bytes) (w : World) :
  ((length hash < 40)%nat ->
     main cwd [prog; "cat-file"%bytes; "-p"%bytes; hash] w
     = (Exited 1, printErr (DiagError "Error: "%bytes (errorString "invalid hash"%bytes)) w))
  /\ (length hash <> 40%nat ->
        main cwd [prog; "ls-tree"%bytes; "--name-only"%bytes; hash] w
        = (Exited 1, printErr (DiagError "Error: "%bytes (errorString "invalid hash"%bytes)) w))
  /\ (length hash <> 40%nat -> hash <> "--name-only"%bytes ->
        main cwd [prog; "ls-tree"%bytes; hash] w
        = (Exited 1, printErr (DiagError "Error: "%bytes (errorString "invalid hash"%bytes)) w))
  /\ (length hash = 40%nat ->
        disk (snd (main cwd [prog; "cat-file"%bytes; "-p"%bytes; hash] w))
          = disk w ++ [OpReadFile (objectPath hash)]
        /\ disk (snd (main cwd [prog; "ls-tree"%bytes; hash] w))
          = disk w ++ [OpReadFile (objectPath hash)]
        /\ disk (snd (main cwd [prog; "ls-tree"%bytes; "--name-only"%bytes; hash] w))
          = disk w ++ [OpReadFile (objectPath hash)]).
Proof.
  split; [|split; [|split]].
  - intros Hlen. rewrite main_cat_file. unfold cmdCatFile, argAt.
    change (length [prog; "cat-file"%bytes; "-p"%bytes; hash] <? 4)%nat with false.
    cbn [lookup list_lookup]. rewrite bool_decide_eq_true_2 by reflexivity. cbn [negb].
    destruct (Nat.ltb_spec (length hash) 40); [reflexivity | lia].
  - intros Hlen. rewrite main_ls_tree_name_only. apply lsTree_rejects. exact Hlen.
  - intros Hlen Hne. rewrite main_ls_tree_hash by exact Hne. apply lsTree_rejects. exact Hlen.
  - intros Hlen. split; [|split].
    + rewrite main_cat_file, cat_file_p by lia.
      apply readContent_disk. intros content w1.
      apply afterHeader_disk. reflexivity.
    + rewrite main_ls_tree_hash; [apply lsTree_reads; exact Hlen|].
      intros ->. discriminate Hlen.
    + rewrite main_ls_tree_name_only. apply lsTree_reads. exact Hlen.
Qed.

End Validation.

Lemma address_length_checked_witness :
  (length "abc"%bytes < 40)%nat
  /\ main (H := framing_zlib) (Directory (Ok []))
       ["got"%bytes; "cat-file"%bytes; "-p"%bytes; "abc"%bytes] helloWorld
     = (Exited 1,
        printErr (DiagError "Error: "%bytes (errorString "invalid hash"%bytes)) helloWorld).
Proof.
  assert (length "abc"%bytes < 40)%nat as Hlen by (vm_compute; lia).
  split; [exact Hlen|].
  exact (proj1 (address_length_checked (H := framing_zlib) (Directory (Ok [])) "got"%bytes
                  "abc"%bytes helloWorld) Hlen).
Defined.

(** ** The tree codec *)

Lemma parseEntries_cons (data : bytes) (entries : list lsTreeEntry) :
  data <> [] ->
  parseEntries data entries =
  match parseEntry data with
  | Err e => Err e
  | Ok (entry, rest) => parseEntries rest (entries ++ [entry])
  end.
Proof.
  destruct data as [|b d]; [congruence|]. intros _.
  rewrite parseEntries_equation_2. unfold parseEntries_unfold_clause_2, inspect.
  destruct (parseEntry (b :: d)) as [[e r]|e]; reflexivity.
Qed.

Lemma parseEntry_entryBytes (e : rawEntry) (rest : bytes) :
  wellFormed e -> parseEntry (entryBytes e ++ rest) = Ok (listed e, rest).
Proof.
  intros (Hm & Hn & Hh). unfold parseEntry, entryBytes.
  replace ((rawMode e ++ [SP] ++ rawName e ++ [NUL] ++ rawHash e) ++ rest)
    with (rawMode e ++ (SP :: (rawName e ++ (NUL :: (rawHash e ++ rest)))))
    by (rewrite <- !app_assoc; reflexivity).
  rewrite (IndexByte_app _ _ SP Hm).
  rewrite take_app_length.
  replace (rawMode e ++ (SP :: (rawName e ++ (NUL :: (rawHash e ++ rest)))))
    with ((rawMode e ++ [SP]) ++ (rawName e ++ (NUL :: (rawHash e ++ rest))))
    by (rewrite <- app_assoc; reflexivity).
  rewrite (drop_app_length' (rawMode e ++ [SP]))
    by (rewrite length_app; reflexivity).
  rewrite (IndexByte_app _ _ NUL Hn). rewrite take_app_length.
  replace (rawName e ++ (NUL :: (rawHash e ++ rest)))
    with ((rawName e ++ [NUL]) ++ (rawHash e ++ rest))
    by (rewrite <- app_assoc; reflexivity).
  rewrite (drop_app_length' (rawName e ++ [NUL]))
    by (rewrite length_app; reflexivity).
  destruct (Nat.ltb_spec (length (rawHash e ++ rest)) 20) as [Hlt|_].
  { rewrite length_app in Hlt. lia. }
  rewrite <- Hh, take_app_length, drop_app_length. reflexivity.
Qed.

Lemma parseEntry_Ok (data : bytes) (entry : lsTreeEntry) (rest : bytes) :
  parseEntry data = Ok (entry, rest) ->
  exists e, wellFormed e /\ data = entryBytes e ++ rest /\ entry = listed e.
Proof.
  unfold parseEntry.
  destruct (IndexByte data SP) as [i|] eqn:Hi; [|discriminate].
  destruct (IndexByte (drop (i + 1) data) NUL) as [j|] eqn:Hj; [|discriminate].
  destruct (Nat.ltb_spec (length (drop (j + 1) (drop (i + 1) data))) 20) as [|Hlen];
    [discriminate|].
  intros [= <- <-].
  apply IndexByte_Some in Hi as (Hd1 & Hm & _).
  apply IndexByte_Some in Hj as (Hd2 & Hn & _).
  set (d1 := drop (i + 1) data) in *. set (d2 := drop (j + 1) d1) in *.
  exists (mkRawEntry (take i data) (take j d1) (take 20 d2)).
  split; [repeat split; try assumption; cbn; rewrite length_take; lia|].
  split; [|reflexivity].
  unfold entryBytes. cbn [rawMode rawName rawHash].
  rewrite <- !app_assoc. cbn [app].
  rewrite (take_drop 20 d2), <- Hd2. exact Hd1.
Qed.

Lemma parseEntry_Err (data : bytes) (e : error) :
  data <> [] -> parseEntry data = Err e -> truncated data e.
Proof.
  intros Hne. unfold parseEntry.
  destruct (IndexByte data SP) as [i|] eqn:Hi.
  - pose proof (IndexByte_Some _ _ _ Hi) as (Hd1 & Hm & _).
    destruct (IndexByte (drop (i + 1) data) NUL) as [j|] eqn:Hj.
    + pose proof (IndexByte_Some _ _ _ Hj) as (Hd2 & Hn & _).
      destruct (Nat.ltb_spec (length (drop (j + 1) (drop (i + 1) data))) 20) as [Hlen|];
        [|discriminate].
      intros [= <-]. rewrite Hd1, Hd2. apply incomplete_hash; assumption.
    + intros [= <-]. rewrite Hd1. apply missing_name_terminator; [exact Hm|].
      apply IndexByte_None. exact Hj.
  - intros [= <-]. apply missing_mode; [exact Hne|]. apply IndexByte_None. exact Hi.
Qed.

Lemma truncated_parseEntry (data : bytes) (e : error) :
  truncated data e -> data <> [] /\ parseEntry data = Err e.
Proof.
  intros Ht. destruct Ht as [rest Hne Hsp | mode r Hm Hr | mode name r Hm Hn Hlen].
  - split; [exact Hne|]. unfold parseEntry.
    apply IndexByte_None in Hsp. rewrite Hsp. reflexivity.
  - split; [destruct mode; discriminate|]. unfold parseEntry.
    rewrite (IndexByte_app _ _ SP Hm).
    replace (mode ++ SP :: r) with ((mode ++ [SP]) ++ r) by (rewrite <- app_assoc; reflexivity).
    rewrite (drop_app_length' (mode ++ [SP])) by (rewrite length_app; reflexivity).
    apply IndexByte_None in Hr. rewrite Hr. reflexivity.
  - split; [destruct mode; discriminate|]. unfold parseEntry.
    rewrite (IndexByte_app _ _ SP Hm).
    replace (mode ++ SP :: name ++ NUL :: r) with ((mode ++ [SP]) ++ (name ++ (NUL :: r)))
      by (rewrite <- app_assoc; reflexivity).
    rewrite (drop_app_length' (mode ++ [SP])) by (rewrite length_app; reflexivity).
    rewrite (IndexByte_app _ _ NUL Hn).
    replace (name ++ (NUL :: r)) with ((name ++ [NUL]) ++ r)
      by (rewrite <- app_assoc; reflexivity).
    rewrite (drop_app_length' (name ++ [NUL])) by (rewrite length_app; reflexivity).
    destruct (Nat.ltb_spec (length r) 20); [reflexivity | lia].
Qed.

(** Whole entries are read one after the other, in their order. *)
Lemma parseEntries_entries (es : list rawEntry) (rest : bytes) (entries : list lsTreeEntry) :
  Forall wellFormed es ->
  parseEntries (flat_map entryBytes es ++ rest) entries
  = parseEntries rest (entries ++ map listed es).
Proof.
  intros Hwf. revert entries. induction Hwf as [|e es He _ IH]; intros entries.
  - simpl. rewrite app_nil_r. reflexivity.
  - cbn [flat_map map]. rewrite <- app_assoc.
    rewrite parseEntries_cons.
    + rewrite (parseEntry_entryBytes e _ He), IH, <- app_assoc. reflexivity.
    + unfold entryBytes. destruct (rawMode e); discriminate.
Qed.

Lemma parseEntries_Err (data : bytes) (entries : list lsTreeEntry) (err : error) :
  parseEntries data entries = Err err ->
  exists es rest,
    Forall wellFormed es /\ data = flat_map entryBytes es ++ rest /\ truncated rest err.
Proof.
  remember (length data) as n eqn:Hn. revert data entries Hn.
  induction n as [n IH] using lt_wf_ind. intros data entries Hn.
  destruct data as [|b d] eqn:Hdata.
  - rewrite parseEntries_equation_1. discriminate.
  - rewrite <- Hdata in *. rewrite parseEntries_cons by (subst data; discriminate).
    destruct (parseEntry data) as [[entry rest]|e] eqn:Hstep.
    + intros Hrec. pose proof (parseEntry_shorter _ _ _ Hstep) as Hlt.
      apply parseEntry_Ok in Hstep as (e0 & He0 & Hd & _).
      destruct (IH (length rest) ltac:(lia) rest _ eq_refl Hrec) as (es & rest' & Hwf & -> & Ht).
      exists (e0 :: es), rest'. split; [constructor; assumption|]. split; [|exact Ht].
      rewrite Hd. cbn [flat_map]. rewrite <- app_assoc. reflexivity.
    + intros [= <-]. exists [], data. split; [constructor|]. split; [reflexivity|].
      apply parseEntry_Err; [subst data; discriminate | exact Hstep].
Qed.

Lemma parseEntries_Ok (data : bytes) (entries out : list lsTreeEntry) :
  parseEntries data entries = Ok out ->
  exists es,
    Forall wellFormed es /\ data = flat_map entryBytes es /\ out = entries ++ map listed es.
Proof.
  remember (length data) as n eqn:Hn. revert data entries Hn.
  induction n as [n IH] using lt_wf_ind. intros data entries Hn.
  destruct data as [|b d] eqn:Hdata.
  - rewrite parseEntries_equation_1. intros [= <-]. exists [].
    split; [constructor|]. split; [reflexivity|]. rewrite app_nil_r. reflexivity.
  - rewrite <- Hdata in *. rewrite parseEntries_cons by (subst data; discriminate).
    destruct (parseEntry data) as [[entry rest]|e] eqn:Hstep; [|discriminate].
    intros Hrec. pose proof (parseEntry_shorter _ _ _ Hstep) as Hlt.
    apply parseEntry_Ok in Hstep as (e0 & He0 & Hd & ->).
    destruct (IH (length rest) ltac:(lia) rest _ eq_refl Hrec) as (es & Hwf & -> & ->).
    exists (e0 :: es). split; [constructor; assumption|]. split; [exact Hd|].
    cbn [map]. rewrite <- app_assoc. reflexivity.
Qed.

(** C6. The parse loop of [ls-tree] ends with an error exactly when the
    payload is a run of whole entries followed by input that is not empty
    and in which no space is found, or no NUL after the space, or fewer
    than 20 bytes after the NUL, and the error says which; the empty
    payload gives the empty list of entries. *)
Theorem tree_decode_fails_exactly_when_truncated (data : bytes) (err : error) :
  (parseEntries data [] = Err err <->
   exists es rest,
     Forall wellFormed es /\ data = flat_map entryBytes es ++ rest /\ truncated rest err)
  /\ parseEntries [] [] = Ok [].
Proof.
  split; [|apply parseEntries_equation_1]. split.
  - apply parseEntries_Err.
  - intros (es & rest & Hwf & -> & Ht).
    rewrite parseEntries_entries by exact Hwf.
    apply truncated_parseEntry in Ht as [Hne Hstep].
    rewrite parseEntries_cons by exact Hne. rewrite Hstep. reflexivity.
Qed.

(** ** The tree lister *)

(** C3, on the code. [write-tree] records a directory under the mode
    "40000", which [gitModes] does not hold (its key is "040000"): the line
    of [ls-tree] for [sub] has the empty string where the scenario has
    "tree". *)
Theorem ls_tree_directory_has_no_type_label :
  gitModesAt "40000"%bytes = []
  /\ gitModesAt "040000"%bytes = "tree"%bytes
  /\ main (H := framing_zlib) sampleTree ["got"%bytes; "write-tree"%bytes] (startWorld os.empty)
     = (Returned,
        printOut ("7a470b9a36089343017f7b179b2bec6a56f208e1"%bytes ++ [LF])
          (snd (writeTree (H := framing_zlib) "."%bytes sampleTree (startWorld os.empty))))
  /\ fst (main (H := framing_zlib) sampleTree
            ["got"%bytes; "ls-tree"%bytes; "7a470b9a36089343017f7b179b2bec6a56f208e1"%bytes]
            (startWorld sampleStore)) = Returned
  /\ stdout (snd (main (H := framing_zlib) sampleTree
                    ["got"%bytes; "ls-tree"%bytes; "7a470b9a36089343017f7b179b2bec6a56f208e1"%bytes]
                    (startWorld sampleStore)))
     = "100644 blob ce013625030ba8dba906f756967f9e9ca394464a a.txt"%bytes ++ [LF]
       ++ "40000  4b825dc642cb6eb9a060e54bf8d69288fbee4904 sub"%bytes ++ [LF].
Proof. repeat split; vm_compute; reflexivity. Qed.

(** ** The tree builder *)

Lemma writeTree_Directory `{Zlib} (dirPath : bytes) (entries : list (bytes * Node)) (w : World) :
  writeTree dirPath (Directory (Ok entries)) w =
  match gatherEntries writeTree dirPath entries [] (logOp (OpReadDir dirPath) w) with
  | (Err e, w1) => (Err e, w1)
  | (Ok treeEntries, w1) =>
      match treeContent (sortSlice treeEntries) with
      | Err e => (Err e, w1)
      | Ok content => writeObject "tree"%bytes content w1
      end
  end.
Proof. reflexivity. Qed.

(** Induction on working trees: a directory has the property when its
    children have it. *)
Lemma Node_induction (P : Node -> Prop) :
  (forall content info, P (File content info)) ->
  (forall e, P (Directory (Err e))) ->
  (forall entries,
     Forall (fun entry => P (snd entry)) entries -> P (Directory (Ok entries))) ->
  forall node, P node.
Proof.
  intros P_File P_unreadable P_Directory. fix IH 1.
  intros [content info | [entries | e]].
  - apply P_File.
  - apply P_Directory. revert entries. fix IHchildren 1.
    intros [|entry rest]; constructor; [apply IH | apply IHchildren].
  - apply P_unreadable.
Qed.

Section InfoFailure.

Context `{Zlib}.

Lemma gatherEntries_readableInfo (dirPath : bytes) (entries : list (bytes * Node)) :
  Forall (fun entry => forall d w,
            writeTree d (readableInfo (snd entry)) w = writeTree d (snd entry) w) entries ->
  forall treeEntries w,
    gatherEntries writeTree dirPath
      (map (fun entry => (fst entry, readableInfo (snd entry))) entries) treeEntries w
    = gatherEntries writeTree dirPath entries treeEntries w.
Proof.
  induction 1 as [|[name child] rest Hchild _ IH]; intros treeEntries w; [reflexivity|].
  cbn [map fst snd gatherEntries].
  destruct (decide (name = ".git"%bytes)); [apply IH|].
  destruct child as [content info | listing].
  - destruct info as [m|e]; cbn [readableInfo].
    + destruct content as [fileContent|e]; [|reflexivity].
      destruct (writeObject _ _ _) as [[hash|e] w1]; [apply IH | reflexivity].
    + destruct content as [fileContent|e']; [|reflexivity].
      destruct (writeObject _ _ _) as [[hash|e'] w1]; [apply IH | reflexivity].
  - specialize (Hchild (Join dirPath name) w). cbn [snd] in Hchild.
    destruct listing as [children|e]; cbn [readableInfo] in *.
    + rewrite Hchild. clear Hchild.
      destruct (writeTree _ _ _) as [[hash|e] w1]; [apply IH | reflexivity].
    + clear Hchild.
      destruct (writeTree _ _ _) as [[hash|e'] w1]; [apply IH | reflexivity].
Qed.

Lemma writeTree_readableInfo (node : Node) :
  forall dirPath w, writeTree dirPath (readableInfo node) w = writeTree dirPath node w.
Proof.
  induction node as [content info | e | entries IH] using Node_induction; intros dirPath w.
  - destruct info; reflexivity.
  - reflexivity.
  - cbn [readableInfo]. rewrite !writeTree_Directory.
    rewrite (gatherEntries_readableInfo dirPath entries IH). reflexivity.
Qed.

(** C10. A file whose metadata cannot be read is recorded with the mode
    "100644", and the failure is not returned: [writeTree] gives the same
    result and leaves the same world as on the tree in which every such
    file has readable metadata without execute permission. *)
Theorem writeTree_discards_info_failure :
  (forall node dirPath w,
     writeTree dirPath node w = writeTree dirPath (readableInfo node) w)
  /\ (forall dirPath name fileContent e treeEntries w,
        name <> ".git"%bytes ->
        gatherEntries writeTree dirPath [(name, File (Ok fileContent) (Err e))] treeEntries w
        = match writeObject "blob"%bytes fileContent (logOp (OpReadFile (Join dirPath name)) w) with
          | (Err e', w1) => (Err e', w1)
          | (Ok hash, w1) =>
              (Ok (treeEntries ++ [mkTreeEntry "100644"%bytes name hash]),
               logOp (OpLstat (Join dirPath name)) w1)
          end).
Proof.
  split.
  - intros node dirPath w. symmetry. apply writeTree_readableInfo.
  - intros dirPath name fileContent e treeEntries w Hname.
    cbn [gatherEntries]. destruct (decide (name = ".git"%bytes)); [contradiction|].
    destruct (writeObject _ _ _) as [[hash|e'] w1]; reflexivity.
Qed.

End InfoFailure.

(** The same directory listed with and without readable metadata of
    [a.txt]: one tree. *)
Lemma writeTree_discards_info_failure_witness :
  "a.txt"%bytes <> ".git"%bytes
  /\ fst (writeTree (H := framing_zlib) "."%bytes
            (Directory (Ok [("a.txt"%bytes, File (Ok hello) (Err zlibError))]))
            (startWorld os.empty))
     = fst (writeTree (H := framing_zlib) "."%bytes
              (readableInfo (Directory (Ok [("a.txt"%bytes, File (Ok hello) (Err zlibError))])))
              (startWorld os.empty)).
Proof.
  split; [discriminate|].
  exact (f_equal fst
           (proj1 (writeTree_discards_info_failure (H := framing_zlib))
              (Directory (Ok [("a.txt"%bytes, File (Ok hello) (Err zlibError))]))
              "."%bytes (startWorld os.empty))).
Defined.

(** ** The order of tree entries *)

Lemma bytes_ltb_irrefl (a : bytes) : bytes_ltb a a = false.
Proof.
  induction a as [|x a IH]; [reflexivity|]. simpl.
  rewrite Z.ltb_irrefl. exact IH.
Qed.

Lemma bytes_ltb_trans (a b c : bytes) :
  bytes_ltb a b = true -> bytes_ltb b c = true -> bytes_ltb a c = true.
Proof.
  revert b c. induction a as [|x a IH]; intros [|y b] [|z c]; simpl; try congruence.
  destruct (Z.ltb_spec (byte_to_Z x) (byte_to_Z y)),
           (Z.ltb_spec (byte_to_Z y) (byte_to_Z x)),
           (Z.ltb_spec (byte_to_Z y) (byte_to_Z z)),
           (Z.ltb_spec (byte_to_Z z) (byte_to_Z y)),
           (Z.ltb_spec (byte_to_Z x) (byte_to_Z z)),
           (Z.ltb_spec (byte_to_Z z) (byte_to_Z x));
    try congruence; try lia.
  apply IH.
Qed.

Lemma bytes_ltb_total (a b : bytes) :
  bytes_ltb a b = false -> bytes_ltb b a = false -> a = b.
Proof.
  revert b. induction a as [|x a IH]; intros [|y b]; simpl; try congruence.
  destruct (Z.ltb_spec (byte_to_Z x) (byte_to_Z y)),
           (Z.ltb_spec (byte_to_Z y) (byte_to_Z x)); try congruence; try lia.
  intros Ha Hb. f_equal; [apply byte_to_Z_inj; lia | apply IH; assumption].
Qed.

Lemma bytes_ltb_asym (a b : bytes) : bytes_ltb a b = true -> bytes_ltb b a = false.
Proof.
  intros Hab. destruct (bytes_ltb b a) eqn:Hba; [|reflexivity].
  pose proof (bytes_ltb_trans _ _ _ Hab Hba) as Haa.
  rewrite bytes_ltb_irrefl in Haa. discriminate.
Qed.

Lemma nameLe_of_less (a b : TreeEntry) : lessName a b = true -> nameLe a b.
Proof. apply bytes_ltb_asym. Qed.

Lemma nameLe_trans (a b c : TreeEntry) : nameLe a b -> nameLe b c -> nameLe a c.
Proof.
  unfold nameLe, lessName. intros Hab Hbc.
  destruct (bytes_ltb (Name c) (Name a)) eqn:Hca; [|reflexivity].
  destruct (bytes_ltb (Name a) (Name b)) eqn:Hab'.
  - rewrite (bytes_ltb_trans _ _ _ Hca Hab') in Hbc. discriminate.
  - rewrite <- (bytes_ltb_total _ _ Hab' Hab) in Hbc. congruence.
Qed.

Lemma insertEntry_Permutation (x : TreeEntry) (l : list TreeEntry) :
  Permutation (insertEntry x l) (x :: l).
Proof.
  induction l as [|y l IH]; simpl; [reflexivity|].
  destruct (lessName x y); [reflexivity|].
  rewrite IH. apply perm_swap.
Qed.

Lemma insertEntry_sorted (x : TreeEntry) (l : list TreeEntry) :
  StronglySorted nameLe l -> StronglySorted nameLe (insertEntry x l).
Proof.
  induction 1 as [|y l Hl IH Hy]; simpl.
  - repeat constructor.
  - destruct (lessName x y) eqn:Hxy.
    + constructor; [constructor; assumption|].
      constructor; [apply nameLe_of_less; exact Hxy|].
      eapply Forall_impl; [exact Hy|]. intros z Hz. simpl in Hz.
      apply (nameLe_trans x y z); [apply nameLe_of_less; exact Hxy | exact Hz].
    + constructor; [exact IH|].
      rewrite (insertEntry_Permutation x l). constructor; assumption.
Qed.

Lemma insertEntry_comm (x y : TreeEntry) (l : list TreeEntry) :
  Name x <> Name y ->
  insertEntry x (insertEntry y l) = insertEntry y (insertEntry x l).
Proof.
  intros Hne.
  assert (lessName x y = false -> lessName y x = true) as Htot.
  { unfold lessName. intros Hxy. destruct (bytes_ltb (Name y) (Name x)) eqn:Hyx; [reflexivity|].
    exfalso. apply Hne. apply bytes_ltb_total; assumption. }
  assert (lessName x y = true -> lessName y x = false) as Hasym by apply bytes_ltb_asym.
  induction l as [|z l IH]; simpl.
  - destruct (lessName x y) eqn:Hxy.
    + rewrite (Hasym eq_refl). reflexivity.
    + rewrite (Htot eq_refl). reflexivity.
  - destruct (lessName y z) eqn:Hyz, (lessName x z) eqn:Hxz; simpl;
      rewrite ?Hyz, ?Hxz.
    + destruct (lessName x y) eqn:Hxy.
      * rewrite (Hasym eq_refl). reflexivity.
      * rewrite (Htot eq_refl). reflexivity.
    + destruct (lessName x y) eqn:Hxy; [|reflexivity].
      unfold lessName in *. rewrite (bytes_ltb_trans _ _ _ Hxy Hyz) in Hxz. discriminate.
    + destruct (lessName y x) eqn:Hyx; [|reflexivity].
      unfold lessName in *. rewrite (bytes_ltb_trans _ _ _ Hyx Hxz) in Hyz. discriminate.
    + rewrite IH. reflexivity.
Qed.

Lemma fold_insert_sorted (l acc : list TreeEntry) :
  StronglySorted nameLe acc ->
  StronglySorted nameLe (fold_left (fun acc x => insertEntry x acc) l acc).
Proof.
  revert acc. induction l as [|x l IH]; intros acc Hacc; simpl; [exact Hacc|].
  apply IH, insertEntry_sorted, Hacc.
Qed.

Lemma fold_insert_Permutation (l acc : list TreeEntry) :
  Permutation (fold_left (fun acc x => insertEntry x acc) l acc) (l ++ acc).
Proof.
  revert acc. induction l as [|x l IH]; intros acc; simpl; [reflexivity|].
  rewrite IH, insertEntry_Permutation. symmetry. apply Permutation_middle.
Qed.

Lemma sortSlice_sorted (l : list TreeEntry) : StronglySorted nameLe (sortSlice l).
Proof. apply fold_insert_sorted. constructor. Qed.

Lemma sortSlice_Permutation (l : list TreeEntry) : Permutation (sortSlice l) l.
Proof. unfold sortSlice. rewrite fold_insert_Permutation, app_nil_r. reflexivity. Qed.

(** The sorted slice does not depend on the order the entries came in,
    when their names differ pairwise. *)
Lemma fold_insert_order (l l' : list TreeEntry) :
  Permutation l l' ->
  NoDup (map Name l) ->
  forall acc,
    fold_left (fun acc x => insertEntry x acc) l acc
    = fold_left (fun acc x => insertEntry x acc) l' acc.
Proof.
  induction 1 as [|x l l' Hp IH|x y l|l l' l'' Hp1 IH1 Hp2 IH2]; intros Hnd acc.
  - reflexivity.
  - simpl. apply IH. simpl in Hnd. apply NoDup_cons in Hnd as [_ Hnd]. exact Hnd.
  - simpl. rewrite insertEntry_comm; [reflexivity|].
    simpl in Hnd. apply NoDup_cons in Hnd as [Hin _].
    intros E. apply Hin. rewrite E. left.
  - rewrite IH1 by exact Hnd. apply IH2.
    assert (map Name l ≡ₚ map Name l') as Hm by (apply Permutation_map; exact Hp1).
    rewrite <- Hm. exact Hnd.
Qed.

(** [bytes_ltb] is the order of the byte values at the first place where
    the two strings differ; a string is before those it is a proper prefix
    of. *)
Lemma bytes_ltb_spec (a b : bytes) :
  bytes_ltb a b = true <->
  (exists p x a' y b',
      a = p ++ x :: a' /\ b = p ++ y :: b' /\ byte_to_Z x < byte_to_Z y)
  \/ (exists y b', b = a ++ y :: b').
Proof.
  revert b. induction a as [|x a IH]; intros [|y b]; simpl.
  - split; [discriminate|]. intros [(p & x & a' & y & b' & Ha & _)|(y & b' & Hb)].
    + destruct p; discriminate.
    + discriminate.
  - split; [|reflexivity]. intros _. right. exists y, b. reflexivity.
  - split; [discriminate|]. intros [(p & x' & a' & y & b' & _ & Hb & _)|(y & b' & Hb)].
    + destruct p; discriminate.
    + discriminate.
  - destruct (Z.ltb_spec (byte_to_Z x) (byte_to_Z y)) as [Hxy|Hxy].
    + split; [|reflexivity]. intros _. left. exists [], x, a, y, b. auto.
    + destruct (Z.ltb_spec (byte_to_Z y) (byte_to_Z x)) as [Hyx|Hyx].
      * split; [discriminate|].
        intros [(p & x' & a' & y' & b' & Ha & Hb & Hlt)|(y' & b' & Hb)].
        -- destruct p as [|c p]; simpl in Ha, Hb.
           ++ injection Ha as -> _. injection Hb as -> _. lia.
           ++ injection Ha as -> _. injection Hb as -> _. lia.
        -- injection Hb as -> _. lia.
      * assert (x = y) as -> by (apply byte_to_Z_inj; lia).
        rewrite IH. split.
        -- intros [(p & x' & a' & y' & b' & -> & -> & Hlt)|(y' & b' & ->)].
           ++ left. exists (y :: p), x', a', y', b'. auto.
           ++ right. exists y', b'. reflexivity.
        -- intros [(p & x' & a' & y' & b' & Ha & Hb & Hlt)|(y' & b' & Hb)].
           ++ destruct p as [|c p]; simpl in Ha, Hb.
              ** injection Ha as -> _. injection Hb as -> _. lia.
              ** injection Ha as _ ->. injection Hb as _ ->.
                 left. exists p, x', a', y', b'. auto.
           ++ injection Hb as ->. right. exists y', b'. reflexivity.
Qed.

(** ** Encoding and decoding a tree *)

Lemma lsOf_inj (l l' : list TreeEntry) : map lsOf l = map lsOf l' -> l = l'.
Proof.
  revert l'. induction l as [|[m n h] l IH]; intros [|[m' n' h'] l']; simpl; try discriminate.
  - reflexivity.
  - unfold lsOf at 1 3. simpl. intros [= -> _ -> -> Hrest]. f_equal. apply IH. exact Hrest.
Qed.

Lemma treeContent_wf (es : list TreeEntry) :
  Forall wfTreeEntry es ->
  treeContent es = Ok (flat_map entryBytes (map rawOf es))
  /\ Forall wellFormed (map rawOf es)
  /\ map listed (map rawOf es) = map lsOf es.
Proof.
  induction 1 as [|e es (Hm & Hn & hb & Hlen & Hh) _ (IHc & IHw & IHl)].
  - repeat split. constructor.
  - assert (rawOf e = mkRawEntry (Mode e) (Name e) hb) as Hraw.
    { unfold rawOf. rewrite Hh, hex_decode_encode. reflexivity. }
    cbn [treeContent map flat_map]. rewrite Hraw, IHc, IHl.
    rewrite Hh at 1. rewrite hex_decode_encode.
    repeat split.
    + unfold entryBytes. cbn [rawMode rawName rawHash].
      rewrite <- !app_assoc. reflexivity.
    + constructor; [|exact IHw]. repeat split; assumption.
    + f_equal. unfold listed, lsOf, sha1toHex. cbn [rawMode rawName rawHash].
      rewrite Hh. reflexivity.
Qed.

Lemma gatherEntries_names `{Zlib} (f : bytes -> Node -> World -> result bytes * World)
    (dirPath : bytes) (entries : list (bytes * Node)) :
  forall treeEntries w out w',
    gatherEntries f dirPath entries treeEntries w = (Ok out, w') ->
    map Name out
    = map Name treeEntries ++ filter (fun name => name <> ".git"%bytes) (map fst entries).
Proof.
  induction entries as [|[name child] rest IH]; intros treeEntries w out w'; simpl.
  - intros [= <- _]. rewrite app_nil_r. reflexivity.
  - destruct (decide (name = ".git"%bytes)) as [->|Hne].
    + intros Hg. rewrite (IH _ _ _ _ Hg).
      rewrite filter_cons_False by (intros Hn; apply Hn; reflexivity). reflexivity.
    + rewrite filter_cons_True by exact Hne.
      destruct child as [content info | listing].
      * destruct content as [fileContent|e]; [|discriminate].
        destruct (writeObject _ _ _) as [[hash|e] w1]; [|discriminate].
        intros Hg. rewrite (IH _ _ _ _ Hg), map_app, <- app_assoc. reflexivity.
      * destruct (f _ _ _) as [[hash|e] w1]; [|discriminate].
        intros Hg. rewrite (IH _ _ _ _ Hg), map_app, <- app_assoc. reflexivity.
Qed.

(** ** The address of a tree does not depend on the order of the listing *)

Section TreeAddress.

Context `{Zlib}.

Lemma writeObject_hash (objectType content hash : bytes) (w w' : World) :
  writeObject objectType content w = (Ok hash, w') ->
  hash = computeHash (fullContent objectType content).
Proof. intros Hw. apply writeObject_ok in Hw as [Hh _]. exact Hh. Qed.

Lemma gatherEntries_rel (dirPath : bytes) (entries : list (bytes * Node)) :
  forall treeEntries w out w',
    gatherEntries writeTree dirPath entries treeEntries w = (Ok out, w') ->
    exists gathered,
      out = treeEntries ++ gathered
      /\ Forall2 entryRel (filter (fun child => fst child <> ".git"%bytes) entries) gathered.
Proof.
  induction entries as [|[name child] rest IH]; intros treeEntries w out w'; simpl.
  - intros [= <- _]. exists []. rewrite app_nil_r. split; [reflexivity | constructor].
  - destruct (decide (name = ".git"%bytes)) as [->|Hne].
    + intros Hg. rewrite filter_cons_False by (intros Hn; apply Hn; reflexivity).
      exact (IH _ _ _ _ Hg).
    + rewrite filter_cons_True by exact Hne.
      destruct child as [content info | listing].
      * destruct content as [fileContent|e]; [|discriminate].
        destruct (writeObject _ _ _) as [[hash|e] w1] eqn:Hw; [|discriminate].
        intros Hg. destruct (IH _ _ _ _ Hg) as (g & -> & Hrel).
        eexists (_ :: g). rewrite <- app_assoc. split; [reflexivity|].
        constructor; [|exact Hrel]. split; [reflexivity|]. cbn [snd].
        split; [destruct info; reflexivity|].
        exists fileContent. split; [reflexivity|]. exact (writeObject_hash _ _ _ _ _ Hw).
      * destruct (writeTree _ _ _) as [[hash|e] w1] eqn:Hw; [|discriminate].
        intros Hg. destruct (IH _ _ _ _ Hg) as (g & -> & Hrel).
        eexists (_ :: g). rewrite <- app_assoc. split; [reflexivity|].
        constructor; [|exact Hrel]. split; [reflexivity|]. cbn [snd].
        split; [reflexivity|]. eauto.
Qed.

(** A working tree has one address, wherever and in whatever world it is
    written. *)
Lemma writeTree_address (node : Node) :
  forall d1 w1 h1 w1' d2 w2 h2 w2',
    writeTree d1 node w1 = (Ok h1, w1') ->
    writeTree d2 node w2 = (Ok h2, w2') ->
    h1 = h2.
Proof.
  induction node as [content info | e | entries IH] using Node_induction;
    intros d1 w1 h1 w1' d2 w2 h2 w2'; try discriminate.
  rewrite !writeTree_Directory.
  destruct (gatherEntries writeTree d1 _ _ _) as [[g1|e] u1] eqn:Hg1; [|discriminate].
  destruct (gatherEntries writeTree d2 _ _ _) as [[g2|e] u2] eqn:Hg2; [|discriminate].
  apply gatherEntries_rel in Hg1 as (g1' & -> & Hr1).
  apply gatherEntries_rel in Hg2 as (g2' & -> & Hr2). cbn [app].
  assert (g1' = g2') as ->.
  { assert (Forall (fun child => forall d1 w1 h1 w1' d2 w2 h2 w2',
              writeTree d1 (snd child) w1 = (Ok h1, w1') ->
              writeTree d2 (snd child) w2 = (Ok h2, w2') -> h1 = h2)
              (filter (fun child => fst child <> ".git"%bytes) entries)) as IH'.
    { rewrite Forall_forall in IH |- *. intros child Hin.
      apply list_elem_of_filter in Hin as [_ Hin]. exact (IH child Hin). }
    clear IH. revert g2' Hr2.
    induction Hr1 as [|child e1 l g1 (Hn1 & Hk1) _ IHl]; intros g2' Hr2.
    - apply Forall2_nil_inv_l in Hr2. congruence.
    - apply Forall2_cons_inv_l in Hr2 as (e2 & g2 & (Hn2 & Hk2) & Hr2 & ->).
      apply Forall_cons in IH' as [Hchild IH']. f_equal; [|exact (IHl IH' _ Hr2)].
      destruct e1 as [m1 n1 a1], e2 as [m2 n2 a2]. cbn [Name Mode Hash] in *.
      destruct child as [name [content info | listing]]; cbn [fst snd] in *.
      + destruct Hk1 as (-> & c1 & -> & ->), Hk2 as (-> & c2 & [= <-] & ->). congruence.
      + destruct Hk1 as (-> & x1 & y1 & z1 & Hw1), Hk2 as (-> & x2 & y2 & z2 & Hw2).
        rewrite (Hchild _ _ _ _ _ _ _ _ Hw1 Hw2). congruence. }
  destruct (treeContent (sortSlice g2')) as [content|e]; [|discriminate].
  intros Hw1 Hw2. apply writeObject_hash in Hw1, Hw2. congruence.
Qed.

Lemma entryRel_functional (child : bytes * Node) (e1 e2 : TreeEntry) :
  entryRel child e1 -> entryRel child e2 -> e1 = e2.
Proof.
  intros (Hn1 & Hk1) (Hn2 & Hk2).
  destruct e1 as [m1 n1 a1], e2 as [m2 n2 a2]. cbn [Name Mode Hash] in *.
  destruct child as [name [content info | listing]]; cbn [fst snd] in *.
  - destruct Hk1 as (-> & c1 & -> & ->), Hk2 as (-> & c2 & [= <-] & ->). congruence.
  - destruct Hk1 as (-> & x1 & y1 & z1 & Hw1), Hk2 as (-> & x2 & y2 & z2 & Hw2).
    rewrite (writeTree_address _ _ _ _ _ _ _ _ _ Hw1 Hw2). congruence.
Qed.

Lemma Forall2_entryRel_Permutation (l l' : list (bytes * Node)) :
  Permutation l l' ->
  forall g g',
    Forall2 entryRel l g -> Forall2 entryRel l' g' -> Permutation g g'.
Proof.
  induction 1 as [|x l l' Hp IH|x y l|l l'' l' Hp1 IH1 Hp2 IH2]; intros g g' Hg Hg'.
  - apply Forall2_nil_inv_l in Hg, Hg'. subst. reflexivity.
  - apply Forall2_cons_inv_l in Hg as (e & g0 & He & Hg & ->).
    apply Forall2_cons_inv_l in Hg' as (e' & g0' & He' & Hg' & ->).
    rewrite (entryRel_functional _ _ _ He He'). constructor. exact (IH _ _ Hg Hg').
  - apply Forall2_cons_inv_l in Hg as (ey & g1 & Hey & Hg & ->).
    apply Forall2_cons_inv_l in Hg as (ex & g2 & Hex & Hg & ->).
    apply Forall2_cons_inv_l in Hg' as (ex' & g1' & Hex' & Hg' & ->).
    apply Forall2_cons_inv_l in Hg' as (ey' & g2' & Hey' & Hg' & ->).
    rewrite (entryRel_functional _ _ _ Hex Hex'), (entryRel_functional _ _ _ Hey Hey').
    assert (g2 = g2') as ->.
    { clear -Hg Hg'. revert g2' Hg'. induction Hg as [|c e l g He _ IH]; intros g2' Hg'.
      - apply Forall2_nil_inv_l in Hg'. congruence.
      - apply Forall2_cons_inv_l in Hg' as (e' & g' & He' & Hg' & ->).
        rewrite (entryRel_functional _ _ _ He He'), (IH _ Hg'). reflexivity. }
    apply perm_swap.
  - assert (exists g'', Forall2 entryRel l'' g'') as (g'' & Hg'').
    { clear -Hp1 Hg. revert g Hg.
      induction Hp1 as [|x l l' Hp IH|x y l|l l' l'' Hp1 IH1 Hp2 IH2]; intros g Hg.
      - exists []. constructor.
      - apply Forall2_cons_inv_l in Hg as (e & g0 & He & Hg & ->).
        destruct (IH _ Hg) as (g' & Hg'). exists (e :: g'). constructor; assumption.
      - apply Forall2_cons_inv_l in Hg as (ey & g1 & Hey & Hg & ->).
        apply Forall2_cons_inv_l in Hg as (ex & g2 & Hex & Hg & ->).
        exists (ex :: ey :: g2).
        constructor; [exact Hex|]. constructor; [exact Hey | exact Hg].
      - destruct (IH1 _ Hg) as (g' & Hg'). exact (IH2 _ Hg'). }
    rewrite (IH1 _ _ Hg Hg''). exact (IH2 _ _ Hg'' Hg').
Qed.

(** Two listings of one directory, in any two orders, give one tree
    address, when the names of the children differ pairwise. *)
Lemma writeTree_order_independent (entries entries' : list (bytes * Node))
    (d d' : bytes) (w w' w1 w1' : World) (h h' : bytes) :
  Permutation entries entries' ->
  NoDup (map fst entries) ->
  writeTree d (Directory (Ok entries)) w = (Ok h, w1) ->
  writeTree d' (Directory (Ok entries')) w' = (Ok h', w1') ->
  h = h'.
Proof.
  intros Hp Hnd. rewrite !writeTree_Directory.
  destruct (gatherEntries writeTree d _ _ _) as [[g|e] u] eqn:Hg; [|discriminate].
  destruct (gatherEntries writeTree d' _ _ _) as [[g'|e] u'] eqn:Hg'; [|discriminate].
  pose proof (gatherEntries_names _ _ _ _ _ _ _ Hg) as Hnames. cbn [map app] in Hnames.
  apply gatherEntries_rel in Hg as (g0 & -> & Hr).
  apply gatherEntries_rel in Hg' as (g0' & -> & Hr'). cbn [app] in *.
  assert (Permutation g0 g0') as Hpg.
  { eapply Forall2_entryRel_Permutation; [|exact Hr|exact Hr'].
    apply filter_Permutation. exact Hp. }
  assert (sortSlice g0 = sortSlice g0') as ->.
  { apply fold_insert_order; [exact Hpg|]. rewrite Hnames. apply NoDup_filter. exact Hnd. }
  destruct (treeContent (sortSlice g0')) as [content|e]; [|discriminate].
  intros Hw Hw'. apply writeObject_hash in Hw, Hw'. congruence.
Qed.

End TreeAddress.

(** ** Tree ordering *)

(** C7. Tree ordering.  [writeTree] serializes its entries after sorting
    them: for entries that can be read back, decoding what it encodes gives
    the entries sorted by name, so the given sequence comes back only if it
    was sorted.  Whatever the order of the directory listing, the entries
    [writeTree] writes are those it gathered, one per child other than
    [.git], sorted ascending by the bytes of their names; and for names that
    differ pairwise the sorted sequence, and with it the address of the
    tree, is the same for every order of the listing. *)
Theorem tree_entries_sorted_by_name `{Zlib} :
  (forall es,
     Forall wfTreeEntry es ->
     exists content,
       treeContent (sortSlice es) = Ok content
       /\ parseEntries content [] = Ok (map lsOf (sortSlice es))
       /\ (parseEntries content [] = Ok (map lsOf es) -> StronglySorted nameLe es))
  /\ (forall dirPath entries w hash w',
        writeTree dirPath (Directory (Ok entries)) w = (Ok hash, w') ->
        exists gathered w1 content,
          gatherEntries writeTree dirPath entries [] (logOp (OpReadDir dirPath) w)
            = (Ok gathered, w1)
          /\ map Name gathered
             = filter (fun name => name <> ".git"%bytes) (map fst entries)
          /\ StronglySorted nameLe (sortSlice gathered)
          /\ Permutation (sortSlice gathered) gathered
          /\ treeContent (sortSlice gathered) = Ok content
          /\ writeObject "tree"%bytes content w1 = (Ok hash, w'))
  /\ (forall es es',
        Permutation es es' -> NoDup (map Name es) -> sortSlice es = sortSlice es')
  /\ (forall entries entries' dirPath w w' hash hash' w1 w1',
        Permutation entries entries' ->
        NoDup (map fst entries) ->
        writeTree dirPath (Directory (Ok entries)) w = (Ok hash, w1) ->
        writeTree dirPath (Directory (Ok entries')) w' = (Ok hash', w1') ->
        hash = hash').
Proof.
  split; [|split; [|split]].
  - intros es Hwf.
    assert (Forall wfTreeEntry (sortSlice es)) as Hwf'.
    { rewrite (sortSlice_Permutation es). exact Hwf. }
    destruct (treeContent_wf _ Hwf') as (Hc & Hw & Hl).
    exists (flat_map entryBytes (map rawOf (sortSlice es))).
    split; [exact Hc|].
    assert (parseEntries (flat_map entryBytes (map rawOf (sortSlice es))) []
            = Ok (map lsOf (sortSlice es))) as Hparse.
    { rewrite <- (app_nil_r (flat_map _ _)).
      rewrite parseEntries_entries by exact Hw.
      rewrite parseEntries_equation_1, Hl. reflexivity. }
    split; [exact Hparse|].
    rewrite Hparse. intros [= Heq]. apply lsOf_inj in Heq.
    rewrite <- Heq. apply sortSlice_sorted.
  - intros dirPath entries w hash w'. rewrite writeTree_Directory.
    destruct (gatherEntries _ _ _ _ _) as [[gathered|e] w1] eqn:Hg; [|discriminate].
    destruct (treeContent (sortSlice gathered)) as [content|e] eqn:Hc; [|discriminate].
    intros Hw. exists gathered, w1, content.
    split; [reflexivity|]. split; [exact (gatherEntries_names _ _ _ _ _ _ _ Hg)|].
    split; [apply sortSlice_sorted|]. split; [apply sortSlice_Permutation|].
    split; [exact Hc | exact Hw].
  - intros es es' Hp Hnd. apply fold_insert_order; assumption.
  - intros entries entries' dirPath w w' hash hash' w1 w1' Hp Hnd Hw Hw'.
    exact (writeTree_order_independent entries entries' dirPath dirPath w w' w1 w1'
             hash hash' Hp Hnd Hw Hw').
Qed.

Lemma unsortedEntries_wf : Forall wfTreeEntry unsortedEntries.
Proof.
  repeat constructor; try (apply (bool_decide_unpack _); vm_compute; exact I).
  - exists (sha1.Sum ("tree 0"%bytes ++ [NUL])). split; vm_compute; reflexivity.
  - exists (sha1.Sum (fullContent "blob"%bytes hello)). split; vm_compute; reflexivity.
Qed.

Lemma tree_entries_sorted_by_name_witness :
  Forall wfTreeEntry unsortedEntries
  /\ exists content,
       treeContent (sortSlice unsortedEntries) = Ok content
       /\ parseEntries content [] = Ok (map lsOf (sortSlice unsortedEntries))
       /\ (parseEntries content [] = Ok (map lsOf unsortedEntries) ->
           StronglySorted nameLe unsortedEntries).
Proof.
  split; [exact unsortedEntries_wf|].
  exact (proj1 (tree_entries_sorted_by_name (H := framing_zlib))
           unsortedEntries unsortedEntries_wf).
Defined.

(** Encoded by [writeTree] and decoded by [ls-tree], the two entries come
    back in the other order. *)
Example unsorted_entries_come_back_sorted :
  sortSlice unsortedEntries = rev unsortedEntries
  /\ match treeContent (sortSlice unsortedEntries) with
     | Ok content => parseEntries content []
     | Err e => Err e
     end = Ok (map lsOf (rev unsortedEntries)).
Proof. split; vm_compute; reflexivity. Qed.

(** * Further properties of the program *)

(** ** Addresses *)

(** X1. The address [computeHash] gives is 40 lowercase hexadecimal digits;
    [hex.DecodeString], as [writeTree] applies it to the address of an
    entry, gives 20 bytes, which [sha1toHex], as [ls-tree] applies it,
    turns into the address again. *)
Theorem computeHash_decodes_to_20_bytes (data : bytes) :
  length (computeHash data) = 40%nat
  /\ Forall (fun c => isLowerHex c = true) (computeHash data)
  /\ exists raw,
       hex.DecodeString (computeHash data) = inr raw
       /\ length raw = 20%nat
       /\ sha1toHex raw = computeHash data.
Proof.
  split; [apply computeHash_length|]. split; [apply computeHash_lower|].
  exists (sha1.Sum data). split; [apply hex_decode_encode|].
  split; [apply sha1_Sum_length | reflexivity].
Qed.

(** X2. [sha1toHex] loses nothing: the bytes are read back from the digits,
    whatever their number. *)
Theorem sha1toHex_decodes (raw : bytes) :
  hex.DecodeString (sha1toHex raw) = inr raw
  /\ length (sha1toHex raw) = (2 * length raw)%nat.
Proof. split; [apply hex_decode_encode | apply hex_encode_length]. Qed.

(** ** The envelope *)

Lemma Itoa_no_NUL (n : nat) : NUL ∉ fmt.Itoa n.
Proof. apply digits_no_byte; [apply Itoa_digits | reflexivity]. Qed.

(** A first occurrence is where it is, however the sequence is split. *)
Lemma first_split_unique (c : byte) (a a' r r' : bytes) :
  c ∉ a -> c ∉ a' -> a ++ c :: r = a' ++ c :: r' -> a = a' /\ r = r'.
Proof.
  intros Ha Ha' E.
  pose proof (IndexByte_app a r c Ha) as H1.
  pose proof (IndexByte_app a' r' c Ha') as H2.
  rewrite E in H1. rewrite H1 in H2. injection H2 as Hlen.
  assert (a = a') as ->.
  { apply (f_equal (take (length a))) in E.
    rewrite take_app_length in E. rewrite Hlen, take_app_length in E. exact E. }
  split; [reflexivity|]. apply app_inv_head in E. congruence.
Qed.

(** X3. The envelope of [writeObject] tells type and content apart: two
    envelopes are equal only for the same type and the same content, when
    the types hold no space. *)
Theorem fullContent_injective (objectType objectType' content content' : bytes) :
  SP ∉ objectType -> SP ∉ objectType' ->
  fullContent objectType content = fullContent objectType' content' ->
  objectType = objectType' /\ content = content'.
Proof.
  intros Hk Hk'. unfold fullContent, objectHeader. rewrite <- !app_assoc. cbn [app].
  intros E. apply first_split_unique in E as [-> E]; [|assumption..].
  split; [reflexivity|].
  apply first_split_unique in E as [_ E]; [exact E | apply Itoa_no_NUL..].
Qed.

Lemma fullContent_injective_witness :
  (SP ∉ "blob"%bytes)
  /\ fullContent "blob"%bytes hello = fullContent "blob"%bytes hello
  /\ hello = hello.
Proof.
  assert (SP ∉ "blob"%bytes) as Hsp by (apply (bool_decide_unpack _); vm_compute; exact I).
  split; [exact Hsp|]. split; [reflexivity|].
  exact (proj2 (fullContent_injective "blob"%bytes "blob"%bytes hello hello Hsp Hsp eq_refl)).
Defined.


(** ** Programs that only read, and programs that do not panic *)

Lemma handleError_keepsFiles (err : error) : keepsFiles (handleError err).
Proof. intros w. reflexivity. Qed.

Lemma handleError_neverPanics (err : error) : neverPanics (handleError err).
Proof. intros w e. discriminate. Qed.

Lemma argAt_keepsFiles (Args : list bytes) (i : nat) (k : bytes -> Prog) :
  (forall a, keepsFiles (k a)) -> keepsFiles (argAt Args i k).
Proof. intros Hk. unfold argAt. destruct (Args !! i); [apply Hk | intros w; reflexivity]. Qed.

Lemma argAt_neverPanics (Args : list bytes) (i : nat) (k : bytes -> Prog) :
  (i < length Args)%nat -> (forall a, neverPanics (k a)) -> neverPanics (argAt Args i k).
Proof.
  intros Hi Hk. unfold argAt. destruct (Args !! i) eqn:Ha; [apply Hk|].
  apply lookup_ge_None in Ha. lia.
Qed.

Section ReadOnly.

Context `{Zlib}.

Lemma readContent_keepsFiles (hash : bytes) (k : bytes -> Prog) :
  (forall content, keepsFiles (k content)) -> keepsFiles (readContent hash k).
Proof.
  intros Hk w. unfold readContent, ReadFile.
  destruct (os.ReadFile (objectPath hash) (fs w)) as [b|e]; [|reflexivity].
  destruct (zlib_decompress b) as [content|]; [|reflexivity].
  rewrite Hk. reflexivity.
Qed.

Lemma readContent_neverPanics (hash : bytes) (k : bytes -> Prog) :
  (forall content, neverPanics (k content)) -> neverPanics (readContent hash k).
Proof.
  intros Hk w. unfold readContent, ReadFile.
  destruct (os.ReadFile (objectPath hash) (fs w)) as [b|e]; [|discriminate].
  destruct (zlib_decompress b) as [content|]; [apply Hk | discriminate].
Qed.

Lemma afterHeader_keepsFiles (content : bytes) (k : bytes -> Prog) :
  (forall payload, keepsFiles (k payload)) -> keepsFiles (afterHeader content k).
Proof.
  intros Hk. unfold afterHeader.
  destruct (IndexByte content NUL); [apply Hk | apply handleError_keepsFiles].
Qed.

Lemma afterHeader_neverPanics (content : bytes) (k : bytes -> Prog) :
  (forall payload, neverPanics (k payload)) -> neverPanics (afterHeader content k).
Proof.
  intros Hk. unfold afterHeader.
  destruct (IndexByte content NUL); [apply Hk | apply handleError_neverPanics].
Qed.

Lemma lsTree_keepsFiles (nameOnly : bool) (hash : bytes) : keepsFiles (lsTree nameOnly hash).
Proof.
  unfold lsTree. destruct (negb _); [apply handleError_keepsFiles|].
  apply readContent_keepsFiles. intros content.
  apply afterHeader_keepsFiles. intros data.
  destruct (parseEntries data []); [intros w; reflexivity | apply handleError_keepsFiles].
Qed.

Lemma lsTree_neverPanics (nameOnly : bool) (hash : bytes) : neverPanics (lsTree nameOnly hash).
Proof.
  unfold lsTree. destruct (negb _); [apply handleError_neverPanics|].
  apply readContent_neverPanics. intros content.
  apply afterHeader_neverPanics. intros data.
  destruct (parseEntries data []); [intros w e; discriminate | apply handleError_neverPanics].
Qed.

Lemma cmdCatFile_keepsFiles (Args : list bytes) : keepsFiles (cmdCatFile Args).
Proof.
  unfold cmdCatFile. destruct (length Args <? 4)%nat; [apply handleError_keepsFiles|].
  apply argAt_keepsFiles. intros flag.
  destruct (negb _); [apply handleError_keepsFiles|].
  apply argAt_keepsFiles. intros hash.
  destruct (length hash <? 40)%nat; [apply handleError_keepsFiles|].
  apply readContent_keepsFiles. intros content.
  apply afterHeader_keepsFiles. intros payload w. reflexivity.
Qed.

Lemma cmdCatFile_neverPanics (Args : list bytes) : neverPanics (cmdCatFile Args).
Proof.
  unfold cmdCatFile. destruct (Nat.ltb_spec (length Args) 4); [apply handleError_neverPanics|].
  apply argAt_neverPanics; [lia|]. intros flag.
  destruct (negb _); [apply handleError_neverPanics|].
  apply argAt_neverPanics; [lia|]. intros hash.
  destruct (length hash <? 40)%nat; [apply handleError_neverPanics|].
  apply readContent_neverPanics. intros content.
  apply afterHeader_neverPanics. intros payload w e. discriminate.
Qed.

Lemma cmdLsTree_keepsFiles (Args : list bytes) : keepsFiles (cmdLsTree Args).
Proof.
  unfold cmdLsTree. destruct (length Args <? 3)%nat; [apply handleError_keepsFiles|].
  apply argAt_keepsFiles. intros a2.
  destruct (bool_decide _); [|apply lsTree_keepsFiles].
  apply argAt_keepsFiles. intros hash. apply lsTree_keepsFiles.
Qed.

Lemma cmdHashObject_neverPanics (Args : list bytes) : neverPanics (cmdHashObject Args).
Proof.
  unfold cmdHashObject. destruct (Nat.ltb_spec (length Args) 4); [apply handleError_neverPanics|].
  apply argAt_neverPanics; [lia|]. intros flag.
  destruct (negb _); [apply handleError_neverPanics|].
  apply argAt_neverPanics; [lia|]. intros filepath w e.
  destruct (ReadFile filepath w) as [[b|err] w1]; [|discriminate].
  destruct (writeObject _ b w1) as [[hash|err] w2]; discriminate.
Qed.

(** X4. [cat-file] and [ls-tree] only read: whatever their arguments and
    however they end, the files and directories are what they were. *)
Theorem cat_file_and_ls_tree_only_read (cwd : Node) (prog : bytes) (rest : list bytes)
    (w : World) :
  fs (snd (main cwd (prog :: "cat-file"%bytes :: rest) w)) = fs w
  /\ fs (snd (main cwd (prog :: "ls-tree"%bytes :: rest) w)) = fs w.
Proof.
  rewrite main_cat_file, main_ls_tree. split.
  - apply cmdCatFile_keepsFiles.
  - apply cmdLsTree_keepsFiles.
Qed.

Lemma cmdInit_returns (w : World) : fst (cmdInit w) = Returned.
Proof. unfold cmdInit. destruct (WriteFile _ _ _). reflexivity. Qed.

(** X5. A run of [main] ends in a panic in one case only: [ls-tree
    --name-only] with nothing after it, where [os.Args[3]] is out of
    range.  Every other argument list ends with a return or an exit. *)
Theorem main_panics_only_on_ls_tree_name_only (cwd : Node) (Args : list bytes)
    (w : World) (e : RuntimeError) :
  fst (main cwd Args w) = Panicked e <->
  (exists prog, Args = [prog; "ls-tree"%bytes; "--name-only"%bytes])
  /\ e = IndexOutOfRange 3 3.
Proof.
  split.
  - destruct Args as [|prog [|command rest]]; try discriminate.
    unfold main, argAt. change (length (prog :: command :: rest) <? 2)%nat with false.
    cbn [lookup list_lookup].
    case_bool_decide; [rewrite cmdInit_returns; discriminate|].
    case_bool_decide; [intros Hp; destruct (cmdCatFile_neverPanics _ _ _ Hp)|].
    case_bool_decide; [intros Hp; destruct (cmdHashObject_neverPanics _ _ _ Hp)|].
    case_bool_decide as Hls.
    + subst command. unfold cmdLsTree, argAt.
      destruct rest as [|a2 rest]; [discriminate|].
      change (length (prog :: "ls-tree"%bytes :: a2 :: rest) <? 3)%nat with false.
      cbn [lookup list_lookup]. case_bool_decide as Ha2.
      * subst a2. destruct rest as [|hash rest]; cbn [lookup list_lookup].
        -- intros [= <-]. split; [exists prog; reflexivity | reflexivity].
        -- intros Hp. destruct (lsTree_neverPanics _ _ _ _ Hp).
      * intros Hp. destruct (lsTree_neverPanics _ _ _ _ Hp).
    + case_bool_decide; [|discriminate].
      unfold cmdWriteTree. destruct (writeTree _ _ _) as [[hash|err] w1]; discriminate.
  - intros [[prog ->] ->]. rewrite main_ls_tree. unfold cmdLsTree, argAt.
    change (length [prog; "ls-tree"%bytes; "--name-only"%bytes] <? 3)%nat with false.
    cbn [lookup list_lookup]. rewrite bool_decide_eq_true_2 by reflexivity. reflexivity.
Qed.

End ReadOnly.

(** ** Reading objects *)

Section Reading.

Context `{Zlib}.

Lemma readContent_of_file (hash stored content : bytes) (k : bytes -> Prog) (w : World) :
  os.files (fs w) !! objectPath hash = Some stored ->
  zlib_decompress stored = Some content ->
  readContent hash k w = k content (logOp (OpReadFile (objectPath hash)) w).
Proof.
  intros Hf Hz. unfold readContent, ReadFile, os.ReadFile. rewrite Hf, Hz. reflexivity.
Qed.

Lemma afterHeader_split (header payload : bytes) (k : bytes -> Prog) :
  NUL ∉ header -> afterHeader (header ++ NUL :: payload) k = k payload.
Proof.
  intros Hn. unfold afterHeader. rewrite (IndexByte_app _ _ NUL Hn). f_equal.
  replace (header ++ NUL :: payload) with ((header ++ [NUL]) ++ payload)
    by (rewrite <- app_assoc; reflexivity).
  apply drop_app_length'. rewrite length_app. reflexivity.
Qed.

(** X6. [cat-file -p] prints what follows the first NUL of the inflated
    object, whatever precedes it: neither the type nor the length the
    header declares is looked at. *)
Theorem cat_file_prints_after_first_NUL (cwd : Node) (prog hash stored header payload : bytes)
    (w : World) :
  (40 <= length hash)%nat ->
  os.files (fs w) !! objectPath hash = Some stored ->
  zlib_decompress stored = Some (header ++ NUL :: payload) ->
  NUL ∉ header ->
  main cwd [prog; "cat-file"%bytes; "-p"%bytes; hash] w
  = (Returned, printOut payload (logOp (OpReadFile (objectPath hash)) w)).
Proof.
  intros Hlen Hf Hz Hn. rewrite main_cat_file, cat_file_p by exact Hlen.
  rewrite (readContent_of_file _ _ _ _ _ Hf Hz), afterHeader_split by exact Hn.
  reflexivity.
Qed.

(** X7. [cat-file -p] on an address of 40 bytes or more ends with exit status
    1, its error on standard error and nothing printed, when the object
    file cannot be read, when it does not inflate, and when what it
    inflates to holds no NUL. *)
Theorem cat_file_errors (cwd : Node) (prog hash : bytes) (w : World) :
  (40 <= length hash)%nat ->
  let w1 := logOp (OpReadFile (objectPath hash)) w in
  (forall e,
     os.ReadFile (objectPath hash) (fs w) = Err e ->
     main cwd [prog; "cat-file"%bytes; "-p"%bytes; hash] w
     = (Exited 1, printErr (DiagError "Error: "%bytes e) w1))
  /\ (forall stored,
        os.files (fs w) !! objectPath hash = Some stored ->
        zlib_decompress stored = None ->
        main cwd [prog; "cat-file"%bytes; "-p"%bytes; hash] w
        = (Exited 1, printErr (DiagError "Error: "%bytes zlibError) w1))
  /\ (forall stored content,
        os.files (fs w) !! objectPath hash = Some stored ->
        zlib_decompress stored = Some content ->
        NUL ∉ content ->
        main cwd [prog; "cat-file"%bytes; "-p"%bytes; hash] w
        = (Exited 1,
           printErr (DiagError "Error: "%bytes
                       (errorString "invalid git object format"%bytes)) w1)).
Proof.
  intros Hlen w1. rewrite main_cat_file, cat_file_p by exact Hlen.
  split; [|split].
  - intros e He. unfold readContent, ReadFile. rewrite He. reflexivity.
  - intros stored Hf Hz. unfold readContent, ReadFile, os.ReadFile. rewrite Hf, Hz. reflexivity.
  - intros stored content Hf Hz Hn. rewrite (readContent_of_file _ _ _ _ _ Hf Hz).
    unfold afterHeader. apply IndexByte_None in Hn. rewrite Hn. reflexivity.
Qed.


End Reading.

Lemma cat_file_prints_after_first_NUL_witness :
  (40 <= length mislabelledAddress)%nat
  /\ main (H := framing_zlib) (Directory (Ok []))
       ["got"%bytes; "cat-file"%bytes; "-p"%bytes; mislabelledAddress] mislabelledWorld
     = (Returned,
        printOut "hi"%bytes
          (logOp (OpReadFile (objectPath mislabelledAddress)) mislabelledWorld)).
Proof.
  assert (40 <= length mislabelledAddress)%nat as Hlen by (vm_compute; lia).
  split; [exact Hlen|].
  refine (cat_file_prints_after_first_NUL (H := framing_zlib) (Directory (Ok [])) "got"%bytes
            mislabelledAddress (framing_compress ("blob 999"%bytes ++ [NUL] ++ "hi"%bytes))
            "blob 999"%bytes "hi"%bytes mislabelledWorld Hlen _ eq_refl _).
  - vm_compute. reflexivity.
  - apply (bool_decide_unpack _). vm_compute. exact I.
Defined.

Lemma cat_file_errors_witness :
  (40 <= length helloAddress)%nat
  /\ main (H := framing_zlib) (Directory (Ok []))
       ["got"%bytes; "cat-file"%bytes; "-p"%bytes; helloAddress] (startWorld os.empty)
     = (Exited 1,
        printErr (DiagError "Error: "%bytes
                    (PathError "open"%bytes (objectPath helloAddress) ENOENT))
          (logOp (OpReadFile (objectPath helloAddress)) (startWorld os.empty))).
Proof.
  assert (40 <= length helloAddress)%nat as Hlen by (vm_compute; lia).
  split; [exact Hlen|].
  refine (proj1 (cat_file_errors (H := framing_zlib) (Directory (Ok [])) "got"%bytes
                   helloAddress (startWorld os.empty) Hlen) _ _).
  vm_compute. reflexivity.
Defined.


(** ** hash-object *)

Section HashObject.

Context `{Zlib}.

Lemma main_hash_object (cwd : Node) (prog : bytes) (rest : list bytes) :
  main cwd (prog :: "hash-object"%bytes :: rest)
  = cmdHashObject (prog :: "hash-object"%bytes :: rest).
Proof.
  unfold main, argAt. cbn [length Nat.ltb Nat.leb lookup list_lookup].
  repeat (case_bool_decide; [discriminate|]). case_bool_decide; [reflexivity|congruence].
Qed.

Lemma hash_object_w (prog filepath : bytes) (w : World) :
  cmdHashObject [prog; "hash-object"%bytes; "-w"%bytes; filepath] w
  = match ReadFile filepath w with
    | (Err e, w1) => handleError e w1
    | (Ok b, w1) =>
        match writeObject "blob"%bytes b w1 with
        | (Err e, w2) => handleError e w2
        | (Ok hash, w2) => (Returned, printOut (hash ++ [LF]) w2)
        end
    end.
Proof.
  unfold cmdHashObject, argAt.
  change (length [prog; "hash-object"%bytes; "-w"%bytes; filepath] <? 4)%nat with false.
  cbn [lookup list_lookup]. rewrite bool_decide_eq_true_2 by reflexivity. reflexivity.
Qed.

(** X9. [hash-object -w file], then [cat-file -p] on the address it printed:
    where the file can be read and nothing is in the way of the object in
    the store, the first prints the address of the blob of the file's
    content and a newline, and the second prints the content of the
    file. *)
Theorem hash_object_then_cat_file (cwd : Node) (prog filepath b : bytes) (w : World) :
  os.files (fs w) !! filepath = Some b ->
  storeReady (fs w) (computeHash (fullContent "blob"%bytes b)) ->
  exists w1,
    main cwd [prog; "hash-object"%bytes; "-w"%bytes; filepath] w = (Returned, w1)
    /\ stdout w1 = stdout w ++ computeHash (fullContent "blob"%bytes b) ++ [LF]
    /\ main cwd [prog; "cat-file"%bytes; "-p"%bytes; computeHash (fullContent "blob"%bytes b)] w1
       = (Returned,
          printOut b
            (logOp (OpReadFile (objectPath (computeHash (fullContent "blob"%bytes b)))) w1)).
Proof.
  intros Hf Hready. set (hash := computeHash (fullContent "blob"%bytes b)) in *.
  destruct (writeObject_succeeds "blob"%bytes b (logOp (OpReadFile filepath) w) Hready)
    as (w2 & Hw).
  fold hash in Hw.
  exists (printOut (hash ++ [LF]) w2). split; [|split].
  - rewrite main_hash_object, hash_object_w. unfold ReadFile, os.ReadFile.
    rewrite Hf, Hw. reflexivity.
  - apply writeObject_ok in Hw as (_ & fs1 & _ & _ & _ & ->). reflexivity.
  - rewrite main_cat_file, cat_file_p by (unfold hash; rewrite computeHash_length; lia).
    rewrite (readContent_of_file hash (zlib_compress (fullContent "blob"%bytes b))
               (fullContent "blob"%bytes b)).
    + rewrite afterHeader_fullContent; [reflexivity|].
      apply (bool_decide_unpack _). vm_compute. exact I.
    + exact (writeObject_stored _ _ _ _ _ Hw).
    + apply zlib_decompress_compress.
Qed.

(** X10. [hash-object -w file] prints an address only when it stored the
    object: a run either returns, having printed exactly the address of
    the blob of the file's content and left its compressed envelope at
    the path of that address, or exits with status 1 having printed
    nothing. *)
Theorem hash_object_prints_only_what_it_stored (cwd : Node) (prog filepath : bytes)
    (w w' : World) (status : Status) :
  main cwd [prog; "hash-object"%bytes; "-w"%bytes; filepath] w = (status, w') ->
  (status = Returned
   /\ exists b,
        os.files (fs w) !! filepath = Some b
        /\ stdout w' = stdout w ++ computeHash (fullContent "blob"%bytes b) ++ [LF]
        /\ os.files (fs w') !! objectPath (computeHash (fullContent "blob"%bytes b))
           = Some (zlib_compress (fullContent "blob"%bytes b)))
  \/ (status = Exited 1 /\ stdout w' = stdout w).
Proof.
  rewrite main_hash_object, hash_object_w. unfold ReadFile, os.ReadFile.
  destruct (os.files (fs w) !! filepath) as [b|] eqn:Hf.
  - destruct (writeObject "blob"%bytes b (logOp (OpReadFile filepath) w)) as [[hash|e] w2] eqn:Hw.
    + intros [= <- <-]. left. split; [reflexivity|]. exists b. split; [reflexivity|].
      pose proof (writeObject_stored _ _ _ _ _ Hw) as Hs.
      apply writeObject_ok in Hw as (-> & fs1 & _ & _ & _ & ->).
      split; [reflexivity | exact Hs].
    + intros [= <- <-]. right. split; [reflexivity|].
      unfold writeObject, MkdirAll, WriteFile in Hw.
      destruct (os.MkdirAll _ _) as [[[]|e1] fs1].
      * destruct (os.WriteFile _ _ _) as [[[]|e2] fs2]; [discriminate|].
        injection Hw as _ <-. reflexivity.
      * injection Hw as _ <-. reflexivity.
  - destruct (os.isDir (fs w) filepath); intros [= <- <-]; right; split; reflexivity.
Qed.

End HashObject.

Lemma hash_object_then_cat_file_witness :
  os.files (fs notesWorld) !! "notes.txt"%bytes = Some hello
  /\ storeReady (fs notesWorld) (computeHash (fullContent "blob"%bytes hello))
  /\ exists w1,
       main (H := framing_zlib) (Directory (Ok []))
         ["got"%bytes; "hash-object"%bytes; "-w"%bytes; "notes.txt"%bytes] notesWorld
       = (Returned, w1)
       /\ stdout w1 = stdout notesWorld ++ computeHash (fullContent "blob"%bytes hello) ++ [LF].
Proof.
  assert (os.files (fs notesWorld) !! "notes.txt"%bytes = Some hello) as Hf
    by (vm_compute; reflexivity).
  assert (storeReady (fs notesWorld) (computeHash (fullContent "blob"%bytes hello))) as Hr
    by (repeat split; vm_compute; reflexivity).
  split; [exact Hf|]. split; [exact Hr|].
  destruct (hash_object_then_cat_file (H := framing_zlib) (Directory (Ok [])) "got"%bytes
              "notes.txt"%bytes hello notesWorld Hf Hr) as (w1 & Hrun & Hout & _).
  exists w1. split; [exact Hrun | exact Hout].
Defined.

Lemma hash_object_prints_only_what_it_stored_witness :
  main (H := framing_zlib) (Directory (Ok []))
    ["got"%bytes; "hash-object"%bytes; "-w"%bytes; "absent.txt"%bytes] notesWorld
  = (Exited 1,
     printErr (DiagError "Error: "%bytes (PathError "open"%bytes "absent.txt"%bytes ENOENT))
       (logOp (OpReadFile "absent.txt"%bytes) notesWorld))
  /\ stdout (printErr (DiagError "Error: "%bytes
                        (PathError "open"%bytes "absent.txt"%bytes ENOENT))
              (logOp (OpReadFile "absent.txt"%bytes) notesWorld))
     = stdout notesWorld.
Proof.
  assert (main (H := framing_zlib) (Directory (Ok []))
            ["got"%bytes; "hash-object"%bytes; "-w"%bytes; "absent.txt"%bytes] notesWorld
          = (Exited 1,
             printErr (DiagError "Error: "%bytes
                         (PathError "open"%bytes "absent.txt"%bytes ENOENT))
               (logOp (OpReadFile "absent.txt"%bytes) notesWorld))) as Hrun
    by (vm_compute; reflexivity).
  split; [exact Hrun|].
  destruct (hash_object_prints_only_what_it_stored (H := framing_zlib) (Directory (Ok []))
              "got"%bytes "absent.txt"%bytes notesWorld _ _ Hrun)
    as [(Hs & _)|(_ & Hout)]; [discriminate Hs | exact Hout].
Defined.

(** ** init *)

Lemma mkdirEach_frame (ps : list bytes) (fs1 : os.FS) :
  os.files (snd (os.mkdirEach ps fs1)) = os.files fs1
  /\ os.dirs fs1 ⊆ os.dirs (snd (os.mkdirEach ps fs1)).
Proof.
  revert fs1. induction ps as [|p ps IH]; intros fs1; simpl; [split; reflexivity|].
  destruct (os.isDir fs1 p); [apply IH|].
  destruct (os.isFile fs1 p); [split; reflexivity|].
  destruct (os.Mkdir p fs1) as [fs2|e] eqn:Hmk; [|split; reflexivity].
  apply Mkdir_ok in Hmk as [Hf Hd]. destruct (IH fs2) as [IHf IHd].
  split; [congruence|]. intros q Hq. apply IHd. rewrite Hd. apply elem_of_union_r. exact Hq.
Qed.

Lemma MkdirAll_frame (path : bytes) (w : World) :
  os.files (fs (snd (MkdirAll path w))) = os.files (fs w)
  /\ os.dirs (fs w) ⊆ os.dirs (fs (snd (MkdirAll path w)))
  /\ stdout (snd (MkdirAll path w)) = stdout w
  /\ stderr (snd (MkdirAll path w)) = stderr w.
Proof.
  unfold MkdirAll, os.MkdirAll.
  pose proof (mkdirEach_frame (os.ancestors [] path) (fs w)) as [Hf Hd].
  destruct (os.mkdirEach _ _) as [r fs']. cbn in *. auto.
Qed.

Lemma WriteFile_frame (name data : bytes) (w : World) :
  (forall p, p <> name ->
     os.files (fs (snd (WriteFile name data w))) !! p = os.files (fs w) !! p)
  /\ os.dirs (fs (snd (WriteFile name data w))) = os.dirs (fs w)
  /\ stdout (snd (WriteFile name data w)) = stdout w
  /\ stderr (snd (WriteFile name data w)) = stderr w.
Proof.
  unfold WriteFile, os.WriteFile.
  destruct (os.isDir (fs w) name); [cbn; auto|].
  destruct (os.isDir (fs w) (os.parent name)).
  - cbn. repeat split. intros p Hp. apply lookup_insert_ne. congruence.
  - destruct (os.isFile (fs w) (os.parent name)); cbn; auto.
Qed.

Lemma reportErr_frame (prefix : bytes) (r : result unit) (w : World) :
  fs (reportErr prefix r w) = fs w /\ stdout (reportErr prefix r w) = stdout w.
Proof. destruct r; split; reflexivity. Qed.

Section Init.

Context `{Zlib}.

Lemma main_init (cwd : Node) (prog : bytes) (rest : list bytes) :
  main cwd (prog :: "init"%bytes :: rest) = cmdInit.
Proof.
  unfold main, argAt. cbn [length Nat.ltb Nat.leb lookup list_lookup].
  rewrite bool_decide_eq_true_2 by reflexivity. reflexivity.
Qed.

(** X11. [init] reports success whatever happens: it returns, having printed
    "Initialized git directory", also where it could make no directory and
    write no file; it removes no directory and changes no file but
    [.git/HEAD]. *)
Theorem init_always_reports_success (cwd : Node) (prog : bytes) (rest : list bytes)
    (w : World) :
  exists w',
    main cwd (prog :: "init"%bytes :: rest) w = (Returned, w')
    /\ stdout w' = stdout w ++ "Initialized git directory"%bytes ++ [LF]
    /\ os.dirs (fs w) ⊆ os.dirs (fs w')
    /\ (forall p, p <> ".git/HEAD"%bytes -> os.files (fs w') !! p = os.files (fs w) !! p).
Proof.
  rewrite main_init. unfold cmdInit. cbn [fold_left].
  set (step := fun (w : World) (dir : bytes) =>
                 let (r, w') := MkdirAll dir w in
                 reportErr "Error creating directory: "%bytes r w').
  assert (forall dir u,
            os.files (fs (step u dir)) = os.files (fs u)
            /\ os.dirs (fs u) ⊆ os.dirs (fs (step u dir))
            /\ stdout (step u dir) = stdout u) as Hstep.
  { intros dir u. unfold step. pose proof (MkdirAll_frame dir u) as (Hf & Hd & Ho & _).
    destruct (MkdirAll dir u) as [r u']. cbn [snd] in *.
    destruct (reportErr_frame "Error creating directory: "%bytes r u') as [-> ->]. auto. }
  change (let (r, w') := MkdirAll ".git"%bytes w in
          reportErr "Error creating directory: "%bytes r w') with (step w ".git"%bytes).
  set (w1 := step w ".git"%bytes).
  change (let (r, w') := MkdirAll ".git/objects"%bytes w1 in
          reportErr "Error creating directory: "%bytes r w') with (step w1 ".git/objects"%bytes).
  set (w2 := step w1 ".git/objects"%bytes).
  change (let (r, w') := MkdirAll ".git/refs"%bytes w2 in
          reportErr "Error creating directory: "%bytes r w') with (step w2 ".git/refs"%bytes).
  set (w3 := step w2 ".git/refs"%bytes).
  destruct (Hstep ".git"%bytes w) as (Hf1 & Hd1 & Ho1). fold w1 in Hf1, Hd1, Ho1.
  destruct (Hstep ".git/objects"%bytes w1) as (Hf2 & Hd2 & Ho2). fold w2 in Hf2, Hd2, Ho2.
  destruct (Hstep ".git/refs"%bytes w2) as (Hf3 & Hd3 & Ho3). fold w3 in Hf3, Hd3, Ho3.
  pose proof (WriteFile_frame ".git/HEAD"%bytes ("ref: refs/heads/main"%bytes ++ [LF]) w3)
    as (Hwf & Hwd & Hwo & _).
  destruct (WriteFile ".git/HEAD"%bytes _ w3) as [r w4]. cbn [snd] in *.
  destruct (reportErr_frame "Error writing file: "%bytes r w4) as [Hrf Hro].
  eexists. split; [reflexivity|]. cbn [stdout fs printOut]. rewrite Hrf, Hro.
  split; [congruence|]. split.
  - rewrite Hwd. intros q Hq. apply Hd3, Hd2, Hd1, Hq.
  - intros p Hp. rewrite (Hwf p Hp). congruence.
Qed.

Lemma isDir_elem (fs1 : os.FS) (p : bytes) :
  p <> "."%bytes -> os.isDir fs1 p = true <-> p ∈ os.dirs fs1.
Proof.
  intros Hp. unfold os.isDir. destruct (decide (p = "."%bytes)); [contradiction|].
  apply bool_decide_eq_true.
Qed.

(** Along a chain of directories with no file in the way, [MkdirAll]
    succeeds and the directories of the chain are what is new. *)
Lemma mkdirEach_chain (ps : list bytes) (prev : bytes) (fs1 : os.FS) :
  os.isDir fs1 prev = true ->
  chained prev ps ->
  Forall (fun p => os.isFile fs1 p = false /\ p <> "."%bytes) ps ->
  os.mkdirEach ps fs1 = (Ok tt, os.mkFS (os.files fs1) (list_to_set ps ∪ os.dirs fs1)).
Proof.
  revert prev fs1. induction ps as [|p ps IH]; intros prev [files1 dirs1] Hprev Hch Hnf.
  - simpl. f_equal. f_equal. apply set_eq. intros x.
    rewrite elem_of_union, elem_of_empty. tauto.
  - destruct Hch as [Hpar Hch]. apply Forall_cons in Hnf as [[Hp Hdot] Hnf].
    cbn [os.mkdirEach list_to_set os.files os.dirs] in *.
    destruct (os.isDir (os.mkFS files1 dirs1) p) eqn:Hd.
    + rewrite (IH p _ Hd Hch Hnf). cbn [os.files os.dirs]. f_equal. f_equal.
      apply isDir_elem in Hd; [|exact Hdot]. cbn in Hd.
      apply set_eq. intros x. rewrite !elem_of_union, elem_of_singleton.
      split; [tauto|]. intros [[->|?]|?]; tauto.
    + rewrite Hp. unfold os.Mkdir. rewrite Hd, Hp, Hpar, Hprev. cbn [orb os.files os.dirs].
      rewrite (IH p (os.mkFS files1 ({[p]} ∪ dirs1))).
      * cbn [os.files os.dirs]. f_equal. f_equal.
        apply set_eq. intros x. rewrite !elem_of_union. tauto.
      * apply isDir_elem; [exact Hdot|]. cbn. apply elem_of_union_l, elem_of_singleton.
        reflexivity.
      * exact Hch.
      * eapply Forall_impl; [exact Hnf|]. intros q [Hq Hq']. split; [|exact Hq'].
        rewrite <- Hq. apply isFile_files. reflexivity.
Qed.

(** X12. [init] in a directory where no file stands at [.git], [.git/objects]
    or [.git/refs] and no directory at [.git/HEAD]: the three directories
    are there afterwards, [.git/HEAD] holds "ref: refs/heads/main\n" (also
    where it held something else before), every other file is as it was,
    and nothing is reported on standard error. *)
Theorem init_creates_layout (cwd : Node) (prog : bytes) (rest : list bytes) (w : World) :
  os.isFile (fs w) ".git"%bytes = false ->
  os.isFile (fs w) ".git/objects"%bytes = false ->
  os.isFile (fs w) ".git/refs"%bytes = false ->
  os.isDir (fs w) ".git/HEAD"%bytes = false ->
  exists w',
    main cwd (prog :: "init"%bytes :: rest) w = (Returned, w')
    /\ os.files (fs w') = <[".git/HEAD"%bytes := headFileContents]> (os.files (fs w))
    /\ os.dirs (fs w')
       = {[".git"%bytes; ".git/objects"%bytes; ".git/refs"%bytes]} ∪ os.dirs (fs w)
    /\ stderr w' = stderr w.
Proof.
  intros Hgit Hobj Hrefs Hhead. rewrite main_init. unfold cmdInit. cbn [fold_left].
  destruct w as [[files0 dirs0] disk0 out0 err0]. cbn [fs os.files os.dirs] in *.
  unfold MkdirAll at 3, os.MkdirAll. cbn [fs].
  change (os.ancestors [] ".git"%bytes) with [".git"%bytes].
  rewrite (mkdirEach_chain [".git"%bytes] "."%bytes);
    [|reflexivity|split; reflexivity|repeat constructor; [exact Hgit|discriminate]].
  cbn [reportErr setFS logOp fs disk stdout stderr os.files os.dirs].
  unfold MkdirAll at 2, os.MkdirAll. cbn [fs].
  change (os.ancestors [] ".git/objects"%bytes) with [".git"%bytes; ".git/objects"%bytes].
  rewrite (mkdirEach_chain [".git"%bytes; ".git/objects"%bytes] "."%bytes);
    [|reflexivity|repeat split|repeat constructor; try discriminate; assumption].
  cbn [reportErr setFS logOp fs disk stdout stderr os.files os.dirs].
  unfold MkdirAll, os.MkdirAll. cbn [fs].
  change (os.ancestors [] ".git/refs"%bytes) with [".git"%bytes; ".git/refs"%bytes].
  rewrite (mkdirEach_chain [".git"%bytes; ".git/refs"%bytes] "."%bytes);
    [|reflexivity|repeat split|repeat constructor; try discriminate; assumption].
  cbn [reportErr setFS logOp fs disk stdout stderr os.files os.dirs].
  set (dirs3 := list_to_set [".git"%bytes; ".git/refs"%bytes] ∪ _).
  assert (dirs3 = {[".git"%bytes; ".git/objects"%bytes; ".git/refs"%bytes]} ∪ dirs0) as Hdirs.
  { unfold dirs3. cbn [list_to_set]. apply set_eq. intros x.
    rewrite !elem_of_union, !elem_of_singleton, elem_of_empty. tauto. }
  unfold WriteFile, os.WriteFile, setFS, logOp.
  cbn [fs disk stdout stderr os.files os.dirs].
  assert (os.isDir (os.mkFS files0 dirs3) ".git/HEAD"%bytes = false) as ->.
  { destruct (os.isDir (os.mkFS files0 dirs3) ".git/HEAD"%bytes) eqn:Hd; [|reflexivity].
    apply isDir_elem in Hd; [|discriminate]. cbn in Hd. rewrite Hdirs in Hd.
    rewrite !elem_of_union, !elem_of_singleton in Hd.
    destruct Hd as [[[Hd|Hd]|Hd]|Hd]; try discriminate.
    assert (os.isDir (os.mkFS files0 dirs0) ".git/HEAD"%bytes = true) as Ht
      by (apply isDir_elem; [discriminate | exact Hd]).
    congruence. }
  change (os.parent ".git/HEAD"%bytes) with ".git"%bytes.
  assert (os.isDir (os.mkFS files0 dirs3) ".git"%bytes = true) as ->.
  { apply isDir_elem; [discriminate|]. cbn. rewrite Hdirs.
    rewrite !elem_of_union, !elem_of_singleton. tauto. }
  eexists. split; [reflexivity|]. cbn. auto.
Qed.

End Init.

Lemma init_creates_layout_witness :
  os.isFile (fs (startWorld os.empty)) ".git"%bytes = false
  /\ os.isFile (fs (startWorld os.empty)) ".git/objects"%bytes = false
  /\ os.isFile (fs (startWorld os.empty)) ".git/refs"%bytes = false
  /\ os.isDir (fs (startWorld os.empty)) ".git/HEAD"%bytes = false
  /\ exists w',
       main (H := framing_zlib) (Directory (Ok [])) ["got"%bytes; "init"%bytes]
         (startWorld os.empty) = (Returned, w')
       /\ os.files (fs w')
          = <[".git/HEAD"%bytes := headFileContents]> (os.files (fs (startWorld os.empty))).
Proof.
  repeat (split; [reflexivity|]).
  destruct (init_creates_layout (H := framing_zlib) (Directory (Ok [])) "got"%bytes []
              (startWorld os.empty) eq_refl eq_refl eq_refl eq_refl) as (w' & Hrun & Hf & _).
  exists w'. split; [exact Hrun | exact Hf].
Defined.

(** ** write-tree *)

Lemma storeGrew_refl (w : World) : storeGrew w w.
Proof. repeat split; auto. Qed.

Lemma storeGrew_trans (w1 w2 w3 : World) :
  storeGrew w1 w2 -> storeGrew w2 w3 -> storeGrew w1 w3.
Proof.
  intros (Hf1 & Hd1 & Hs1 & Ho1 & He1) (Hf2 & Hd2 & Hs2 & Ho2 & He2).
  repeat split; try congruence.
  - intros p Hp. rewrite (Hf2 p Hp). apply Hf1, Hp.
  - intros q Hq. apply Hd2, Hd1, Hq.
  - intros p Hp. apply Hs2, Hs1, Hp.
Qed.

Lemma storeGrew_logOp (op : DiskOp) (w : World) : storeGrew w (logOp op w).
Proof. repeat split; auto. Qed.

Lemma lookup_congr (m1 m2 : gmap bytes bytes) (p : bytes) :
  m1 = m2 -> m1 !! p = m2 !! p.
Proof. intros ->. reflexivity. Qed.

Section WriteTree.

Context `{Zlib}.

Lemma writeObject_storeGrew (objectType content : bytes) (w : World) :
  storeGrew w (snd (writeObject objectType content w)).
Proof.
  unfold writeObject.
  set (h := computeHash (fullContent objectType content)).
  set (compressed := zlib_compress (fullContent objectType content)).
  pose proof (MkdirAll_frame (objectDir h) w) as (Hf & Hd & Ho & He).
  destruct (MkdirAll (objectDir h) w) as [[[]|e] w1]; cbn [snd] in *.
  - pose proof (WriteFile_frame (objectPath h) compressed w1) as (Hwf & Hwd & Hwo & Hwe).
    assert (forall p,
              is_Some (os.files (fs w1) !! p) ->
              is_Some (os.files (fs (snd (WriteFile (objectPath h) compressed w1))) !! p))
      as Hws.
    { intros p Hp. destruct (decide (p = objectPath h)) as [->|Hne];
        [|rewrite (Hwf p Hne); exact Hp].
      unfold WriteFile, os.WriteFile.
      destruct (os.isDir (fs w1) (objectPath h)); [exact Hp|].
      destruct (os.isDir (fs w1) (os.parent (objectPath h))).
      - cbn. rewrite lookup_insert_eq. eauto.
      - destruct (os.isFile (fs w1) (os.parent (objectPath h))); exact Hp. }
    assert (storeGrew w (snd (WriteFile (objectPath h) compressed w1))) as Hgrew.
    { split; [|split; [|split; [|split]]].
      - intros p Hp. rewrite Hwf; [exact (lookup_congr _ _ p Hf)|].
        intros ->. apply Hp. exists (fullContent objectType content). reflexivity.
      - rewrite Hwd. exact Hd.
      - intros p Hp. apply Hws.
        rewrite (lookup_congr _ _ p Hf). exact Hp.
      - congruence.
      - congruence. }
    destruct (WriteFile (objectPath h) compressed w1) as [[[]|e] w2]; exact Hgrew.
  - split; [|split; [|split; [|split]]]; try congruence.
    exact Hd.
Qed.

Lemma gatherEntries_storeGrew (dirPath : bytes) (entries : list (bytes * Node)) :
  Forall (fun child => forall d w, storeGrew w (snd (writeTree d (snd child) w))) entries ->
  forall treeEntries w,
    storeGrew w (snd (gatherEntries writeTree dirPath entries treeEntries w)).
Proof.
  induction 1 as [|[name child] rest Hchild _ IH]; intros treeEntries w;
    [apply storeGrew_refl|].
  cbn [gatherEntries]. destruct (decide (name = ".git"%bytes)); [apply IH|].
  destruct child as [content info | listing].
  - destruct content as [fileContent|e]; [|apply storeGrew_logOp].
    pose proof (writeObject_storeGrew "blob"%bytes fileContent
                  (logOp (OpReadFile (Join dirPath name)) w)) as Hw.
    destruct (writeObject _ _ _) as [[hash|e] w1]; cbn [snd] in *.
    + eapply storeGrew_trans; [|apply IH].
      eapply storeGrew_trans; [apply storeGrew_logOp|].
      eapply storeGrew_trans; [exact Hw | apply storeGrew_logOp].
    + eapply storeGrew_trans; [apply storeGrew_logOp | exact Hw].
  - specialize (Hchild (Join dirPath name) w). cbn [snd] in Hchild.
    destruct (writeTree _ _ _) as [[hash|e] w1]; cbn [snd] in *; [|exact Hchild].
    eapply storeGrew_trans; [exact Hchild | apply IH].
Qed.

Lemma writeTree_storeGrew (node : Node) :
  forall dirPath w, storeGrew w (snd (writeTree dirPath node w)).
Proof.
  induction node as [content info | e | entries IH] using Node_induction; intros dirPath w.
  - apply storeGrew_logOp.
  - apply storeGrew_logOp.
  - rewrite writeTree_Directory.
    pose proof (gatherEntries_storeGrew dirPath entries IH [] (logOp (OpReadDir dirPath) w))
      as Hg.
    destruct (gatherEntries _ _ _ _ _) as [[g|e] w1]; cbn [snd] in *.
    + destruct (treeContent (sortSlice g)) as [content|e]; cbn [snd].
      * eapply storeGrew_trans; [|apply writeObject_storeGrew].
        eapply storeGrew_trans; [apply storeGrew_logOp | exact Hg].
      * eapply storeGrew_trans; [apply storeGrew_logOp | exact Hg].
    + eapply storeGrew_trans; [apply storeGrew_logOp | exact Hg].
Qed.

(** X13. [writeObject] and [writeTree] only add to the store: a file is
    changed only at the path of an object, so no file of the working tree
    is touched; no file and no directory is removed; and neither prints,
    however it ends. *)
Theorem writeTree_only_adds_objects :
  (forall objectType content w, storeGrew w (snd (writeObject objectType content w)))
  /\ (forall node dirPath w, storeGrew w (snd (writeTree dirPath node w))).
Proof. split; [apply writeObject_storeGrew | apply writeTree_storeGrew]. Qed.

Lemma gatherEntries_filter (dirPath : bytes) (entries : list (bytes * Node)) :
  forall treeEntries w,
    gatherEntries writeTree dirPath
      (filter (fun child => fst child <> ".git"%bytes) entries) treeEntries w
    = gatherEntries writeTree dirPath entries treeEntries w.
Proof.
  induction entries as [|[name child] rest IH]; intros treeEntries w; [reflexivity|].
  destruct (decide (name = ".git"%bytes)) as [->|Hne].
  - rewrite filter_cons_False by (intros Hn; apply Hn; reflexivity).
    rewrite IH. cbn [gatherEntries].
    destruct (decide (".git"%bytes = ".git"%bytes)); [reflexivity | congruence].
  - rewrite filter_cons_True by exact Hne. cbn [gatherEntries].
    destruct (decide (name = ".git"%bytes)); [contradiction|].
    destruct child as [content info | listing].
    + destruct content as [fileContent|e]; [|reflexivity].
      destruct (writeObject _ _ _) as [[hash|e] w1]; [apply IH | reflexivity].
    + destruct (writeTree _ _ _) as [[hash|e] w1]; [apply IH | reflexivity].
Qed.

(** X14. [writeTree] passes over every child named [.git], whatever it is: the
    result and the world are those for the listing without these
    children. *)
Theorem writeTree_skips_dot_git (dirPath : bytes) (entries : list (bytes * Node)) (w : World) :
  writeTree dirPath (Directory (Ok entries)) w
  = writeTree dirPath
      (Directory (Ok (filter (fun child => fst child <> ".git"%bytes) entries))) w.
Proof. rewrite !writeTree_Directory, gatherEntries_filter. reflexivity. Qed.

End WriteTree.

(** ** Trees written and read *)

(** X15. The serialization loop of [writeTree] keeps the order it is given, and
    the parse loop of [ls-tree] reads the entries back in that order, for
    entries without space in the mode and NUL in the name whose address is
    40 lowercase digits. *)
Theorem treeContent_parseEntries_round_trip (es : list TreeEntry) :
  Forall wfTreeEntry es ->
  exists content,
    treeContent es = Ok content /\ parseEntries content [] = Ok (map lsOf es).
Proof.
  intros Hwf. destruct (treeContent_wf es Hwf) as (Hc & Hw & Hl).
  exists (flat_map entryBytes (map rawOf es)). split; [exact Hc|].
  rewrite <- (app_nil_r (flat_map _ _)).
  rewrite parseEntries_entries by exact Hw.
  rewrite parseEntries_equation_1, Hl. reflexivity.
Qed.

Lemma treeContent_parseEntries_round_trip_witness :
  Forall wfTreeEntry unsortedEntries
  /\ exists content,
       treeContent unsortedEntries = Ok content
       /\ parseEntries content [] = Ok (map lsOf unsortedEntries).
Proof.
  split; [exact unsortedEntries_wf|].
  exact (treeContent_parseEntries_round_trip unsortedEntries unsortedEntries_wf).
Defined.

Section TreesWrittenAndRead.

Context `{Zlib}.

Lemma writeTree_hash_form (dirPath : bytes) (node : Node) (w w' : World) (hash : bytes) :
  writeTree dirPath node w = (Ok hash, w') -> exists data, hash = computeHash data.
Proof.
  destruct node as [content info | [entries | e]]; try discriminate.
  rewrite writeTree_Directory.
  destruct (gatherEntries _ _ _ _ _) as [[g|e] w1]; [|discriminate].
  destruct (treeContent (sortSlice g)) as [content|e]; [|discriminate].
  intros Hw. apply writeObject_hash in Hw. eauto.
Qed.




(** X16. The hexadecimal decoding in the serialization loop of [writeTree]
    cannot fail: every address the walk gathered comes from [computeHash],
    so what was gathered is always serialized. *)
Theorem writeTree_serializes_what_it_gathered (dirPath : bytes)
    (entries : list (bytes * Node)) (w w1 : World) (gathered : list TreeEntry) :
  gatherEntries writeTree dirPath entries [] w = (Ok gathered, w1) ->
  exists content, treeContent (sortSlice gathered) = Ok content.
Proof.
  intros Hg. apply gatherEntries_rel in Hg as (g & -> & Hrel). cbn [app].
  assert (Forall (fun e => exists raw, Hash e = hex.EncodeToString raw) g) as Hhex.
  { clear -Hrel. induction Hrel as [|child e l g' (_ & Hk) _ IH]; constructor; [|exact IH].
    destruct child as [name [content info | listing]]; cbn [snd] in Hk.
    - destruct Hk as (_ & fileContent & _ & Hh). eexists. exact Hh.
    - destruct Hk as (_ & d & w & w' & Hw).
      apply writeTree_hash_form in Hw as (data & Hh). eexists. exact Hh. }
  assert (Forall (fun e => exists raw, Hash e = hex.EncodeToString raw) (sortSlice g)) as Hs.
  { rewrite (sortSlice_Permutation g). exact Hhex. }
  clear -Hs. induction Hs as [|e l (raw & Hraw) _ (content & IH)].
  - exists []. reflexivity.
  - cbn [treeContent]. rewrite Hraw, hex_decode_encode, IH. eexists. reflexivity.
Qed.


End TreesWrittenAndRead.


Lemma sample_written :
  writeTree (H := framing_zlib) "."%bytes (Directory (Ok sampleEntries)) (startWorld os.empty)
  = (Ok sampleTreeAddress, sampleWritten).
Proof. vm_compute. reflexivity. Qed.

Lemma writeTree_serializes_what_it_gathered_witness :
  gatherEntries (writeTree (H := framing_zlib)) "."%bytes sampleEntries []
    (startWorld os.empty)
  = (Ok sampleGathered,
     snd (gatherEntries (writeTree (H := framing_zlib)) "."%bytes sampleEntries []
            (startWorld os.empty)))
  /\ exists content, treeContent (sortSlice sampleGathered) = Ok content.
Proof.
  assert (gatherEntries (writeTree (H := framing_zlib)) "."%bytes sampleEntries []
            (startWorld os.empty)
          = (Ok sampleGathered,
             snd (gatherEntries (writeTree (H := framing_zlib)) "."%bytes sampleEntries []
                    (startWorld os.empty)))) as Hg by (vm_compute; reflexivity).
  split; [exact Hg|].
  exact (writeTree_serializes_what_it_gathered (H := framing_zlib) _ _ _ _ _ Hg).
Defined.


(** ** The parse loop, when it succeeds *)

Lemma listed_inj (es es' : list rawEntry) :
  Forall wellFormed es -> Forall wellFormed es' ->
  map listed es = map listed es' -> es = es'.
Proof.
  intros Hwf. revert es'. induction Hwf as [|e es _ _ IH]; intros [|e' es'] Hwf' Heq;
    try discriminate; [reflexivity|].
  apply Forall_cons in Hwf' as [_ Hwf']. cbn [map] in Heq.
  injection Heq as Hm _ Hh Hn Hrest. f_equal; [|exact (IH _ Hwf' Hrest)].
  destruct e as [m n h], e' as [m' n' h']. cbn [rawMode rawName rawHash] in *.
  subst m' n'. f_equal.
  assert (hex.DecodeString (sha1toHex h) = hex.DecodeString (sha1toHex h')) as Hd
    by (rewrite Hh; reflexivity).
  unfold sha1toHex in Hd. rewrite !hex_decode_encode in Hd. congruence.
Qed.

(** X18. The parse loop of [ls-tree] succeeds exactly on the payloads that are
    whole entries one after the other, and gives these entries in their
    order; such a payload is the encoding of one sequence of entries
    only. *)
Theorem tree_decode_succeeds_exactly_on_whole_entries (data : bytes)
    (out : list lsTreeEntry) :
  (parseEntries data [] = Ok out <->
   exists es, Forall wellFormed es /\ data = flat_map entryBytes es /\ out = map listed es)
  /\ (forall es es',
        Forall wellFormed es -> Forall wellFormed es' ->
        flat_map entryBytes es = flat_map entryBytes es' -> es = es').
Proof.
  split; [split|].
  - intros Hp. apply parseEntries_Ok in Hp as (es & Hwf & -> & ->). eauto.
  - intros (es & Hwf & -> & ->). rewrite <- (app_nil_r (flat_map _ _)).
    rewrite parseEntries_entries by exact Hwf. apply parseEntries_equation_1.
  - intros es es' Hwf Hwf' Heq. apply listed_inj; [assumption..|].
    assert (parseEntries (flat_map entryBytes es ++ []) []
            = parseEntries (flat_map entryBytes es' ++ []) []) as Hp
      by (rewrite Heq; reflexivity).
    rewrite !parseEntries_entries, !parseEntries_equation_1 in Hp by assumption.
    injection Hp as Hp. exact Hp.
Qed.

(** ** The write-tree command *)

Section WriteTreeCommand.

Context `{Zlib}.

(** X19. [write-tree] prints an address only when the tree was stored: a run
    either returns, having printed exactly the address [writeTree] gave
    for the working directory, under which the compressed tree object
    then lies, or it exits with status 1 and its error on standard error,
    having printed nothing. *)
Theorem write_tree_prints_only_what_it_stored (cwd : Node) (prog : bytes)
    (rest : list bytes) (w w' : World) (status : Status) :
  main cwd (prog :: "write-tree"%bytes :: rest) w = (status, w') ->
  (status = Returned
   /\ exists hash content,
        fst (writeTree "."%bytes cwd w) = Ok hash
        /\ stdout w' = stdout w ++ hash ++ [LF]
        /\ stderr w' = stderr w
        /\ os.files (fs w') !! objectPath hash
           = Some (zlib_compress (fullContent "tree"%bytes content)))
  \/ (status = Exited 1
      /\ stdout w' = stdout w
      /\ exists e, fst (writeTree "."%bytes cwd w) = Err e
                   /\ stderr w' = stderr w ++ [DiagError "Error: "%bytes e]).
Proof.
  rewrite main_write_tree. unfold cmdWriteTree.
  pose proof (writeTree_storeGrew cwd "."%bytes w) as (_ & _ & _ & Hout & Herr).
  destruct (writeTree "."%bytes cwd w) as [[hash|e] w1] eqn:Hw; cbn [snd fst] in *.
  - intros [= <- <-]. left. split; [reflexivity|].
    destruct cwd as [content info | [entries | e]]; try discriminate.
    rewrite writeTree_Directory in Hw.
    destruct (gatherEntries _ _ _ _ _) as [[g|e] w2]; [|discriminate].
    destruct (treeContent (sortSlice g)) as [content|e]; [|discriminate].
    exists hash, content. split; [reflexivity|]. cbn [stdout stderr fs printOut].
    rewrite Hout, Herr. repeat split. exact (writeObject_stored _ _ _ _ _ Hw).
  - intros [= <- <-]. right. split; [reflexivity|]. cbn [stdout stderr printErr handleError].
    split; [exact Hout|]. exists e. split; [reflexivity|]. rewrite Herr. reflexivity.
Qed.

Lemma gatherEntries_app (dirPath : bytes) (l1 l2 : list (bytes * Node)) :
  forall treeEntries w,
    gatherEntries writeTree dirPath (l1 ++ l2) treeEntries w
    = match gatherEntries writeTree dirPath l1 treeEntries w with
      | (Ok gathered, w1) => gatherEntries writeTree dirPath l2 gathered w1
      | (Err e, w1) => (Err e, w1)
      end.
Proof.
  induction l1 as [|[name child] l1 IH]; intros treeEntries w; [reflexivity|].
  cbn [app gatherEntries]. destruct (decide (name = ".git"%bytes)); [apply IH|].
  destruct child as [content info | listing].
  - destruct content as [fileContent|e]; [|reflexivity].
    destruct (writeObject _ _ _) as [[hash|e] w1]; [apply IH | reflexivity].
  - destruct (writeTree _ _ _) as [[hash|e] w1]; [apply IH | reflexivity].
Qed.

(** X20. [writeTree] stops at the first child it cannot read: where the walk
    of the children before a file succeeded and the file cannot be read,
    [writeTree] returns the error of the read; the children after the file
    are not looked at, no tree object is written, and what was written for
    the children before it stays. *)
Theorem writeTree_stops_at_unreadable_file (dirPath name : bytes) (info : result Z)
    (before after : list (bytes * Node)) (e : error) (w w1 : World)
    (gathered : list TreeEntry) :
  name <> ".git"%bytes ->
  gatherEntries writeTree dirPath before [] (logOp (OpReadDir dirPath) w)
    = (Ok gathered, w1) ->
  writeTree dirPath (Directory (Ok (before ++ (name, File (Err e) info) :: after))) w
  = (Err e, logOp (OpReadFile (Join dirPath name)) w1).
Proof.
  intros Hname Hg. rewrite writeTree_Directory, gatherEntries_app, Hg.
  cbn [gatherEntries]. destruct (decide (name = ".git"%bytes)); [contradiction|].
  reflexivity.
Qed.

Lemma gatherEntries_only_dot_git (dirPath : bytes) (entries : list (bytes * Node)) :
  Forall (fun child => fst child = ".git"%bytes) entries ->
  forall treeEntries w,
    gatherEntries writeTree dirPath entries treeEntries w = (Ok treeEntries, w).
Proof.
  induction 1 as [|[name child] rest Hgit _ IH]; intros treeEntries w; [reflexivity|].
  cbn [gatherEntries]. cbn [fst] in Hgit.
  destruct (decide (name = ".git"%bytes)); [apply IH | contradiction].
Qed.

(** X21. A directory with no child, or with no child but [.git]: where nothing
    is in the way in the store, [writeTree] stores the tree without
    entries, "tree 0\0", under the address
    4b825dc642cb6eb9a060e54bf8d69288fbee4904, and [ls-tree] on that address
    prints nothing. *)
Theorem writeTree_of_empty_directory (cwd : Node) (prog dirPath : bytes)
    (entries : list (bytes * Node)) (w : World) :
  Forall (fun child => fst child = ".git"%bytes) entries ->
  storeReady (fs w) emptyTreeAddress ->
  exists w',
    writeTree dirPath (Directory (Ok entries)) w = (Ok emptyTreeAddress, w')
    /\ os.files (fs w') !! objectPath emptyTreeAddress
       = Some (zlib_compress ("tree 0"%bytes ++ [NUL]))
    /\ main cwd [prog; "ls-tree"%bytes; emptyTreeAddress] w'
       = (Returned, printOut [] (logOp (OpReadFile (objectPath emptyTreeAddress)) w')).
Proof.
  intros Hgit Hready. rewrite writeTree_Directory.
  rewrite (gatherEntries_only_dot_git dirPath entries Hgit). cbn [sortSlice fold_left treeContent].
  assert (computeHash (fullContent "tree"%bytes []) = emptyTreeAddress) as Haddr
    by (vm_compute; reflexivity).
  destruct (writeObject_succeeds "tree"%bytes [] (logOp (OpReadDir dirPath) w)) as (w' & Hw).
  { rewrite Haddr. exact Hready. }
  rewrite Haddr in Hw. exists w'. split; [exact Hw|]. split.
  - exact (writeObject_stored _ _ _ _ _ Hw).
  - rewrite main_ls_tree_hash by discriminate. unfold lsTree.
    change (negb (length emptyTreeAddress =? 40)%nat) with false. cbn match.
    rewrite (readContent_stored _ _ _ _ _ _ Hw).
    rewrite afterHeader_fullContent by (apply (bool_decide_unpack _); vm_compute; exact I).
    rewrite parseEntries_equation_1. reflexivity.
Qed.

End WriteTreeCommand.

Lemma write_tree_prints_only_what_it_stored_witness :
  main (H := framing_zlib) (Directory (Ok sampleEntries)) ["got"%bytes; "write-tree"%bytes]
    (startWorld os.empty)
  = (Returned, printOut (sampleTreeAddress ++ [LF]) sampleWritten)
  /\ stdout (printOut (sampleTreeAddress ++ [LF]) sampleWritten) = sampleTreeAddress ++ [LF].
Proof.
  assert (main (H := framing_zlib) (Directory (Ok sampleEntries))
            ["got"%bytes; "write-tree"%bytes] (startWorld os.empty)
          = (Returned, printOut (sampleTreeAddress ++ [LF]) sampleWritten)) as Hrun
    by (vm_compute; reflexivity).
  split; [exact Hrun|].
  destruct (write_tree_prints_only_what_it_stored (H := framing_zlib) _ _ _ _ _ _ Hrun)
    as [(_ & hash & content & Hh & Hout & _)|(Hs & _)]; [|discriminate Hs].
  rewrite sample_written in Hh. cbn [fst] in Hh. injection Hh as <-. exact Hout.
Defined.

Lemma writeTree_stops_at_unreadable_file_witness :
  "b.txt"%bytes <> ".git"%bytes
  /\ writeTree (H := framing_zlib) "."%bytes
       (Directory (Ok ([] ++ ("b.txt"%bytes, File (Err zlibError) (Ok 420)) :: sampleEntries)))
       (startWorld os.empty)
     = (Err zlibError,
        logOp (OpReadFile (Join "."%bytes "b.txt"%bytes))
          (logOp (OpReadDir "."%bytes) (startWorld os.empty))).
Proof.
  assert ("b.txt"%bytes <> ".git"%bytes) as Hne by discriminate.
  split; [exact Hne|].
  exact (writeTree_stops_at_unreadable_file (H := framing_zlib) "."%bytes "b.txt"%bytes
           (Ok 420) [] sampleEntries zlibError (startWorld os.empty) _ [] Hne eq_refl).
Defined.

Lemma writeTree_of_empty_directory_witness :
  Forall (fun child : bytes * Node => fst child = ".git"%bytes)
    [(".git"%bytes, Directory (Err zlibError))]
  /\ storeReady (fs (startWorld os.empty)) emptyTreeAddress
  /\ exists w',
       writeTree (H := framing_zlib) "."%bytes
         (Directory (Ok [(".git"%bytes, Directory (Err zlibError))])) (startWorld os.empty)
       = (Ok emptyTreeAddress, w').
Proof.
  assert (Forall (fun child : bytes * Node => fst child = ".git"%bytes)
            [(".git"%bytes, Directory (Err zlibError))]) as Hgit
    by (repeat constructor).
  assert (storeReady (fs (startWorld os.empty)) emptyTreeAddress) as Hready
    by (repeat split; vm_compute; reflexivity).
  split; [exact Hgit|]. split; [exact Hready|].
  destruct (writeTree_of_empty_directory (H := framing_zlib) (Directory (Ok [])) "got"%bytes
              "."%bytes _ (startWorld os.empty) Hgit Hready) as (w' & Hw & _).
  exists w'. exact Hw.
Defined.

(** ** Command lines that are rejected *)

Section Rejected.

Context `{Zlib}.

(** X22. A command line [main] rejects ends the run with exit status 1 and one
    diagnostic on standard error, with nothing printed and the disk not
    touched: no command; a command that is none of the five, which is
    named in the diagnostic; [cat-file] with less than two arguments or
    with a first argument other than [-p]; [hash-object] with less than
    two arguments or with a first argument other than [-w]; [ls-tree]
    with no argument. *)
Theorem main_rejects_bad_command_lines (cwd : Node) (w : World) :
  (forall Args,
     (length Args < 2)%nat ->
     main cwd Args w
     = (Exited 1, printErr (DiagText ("usage: got <command> [<args>...]"%bytes ++ [LF])) w))
  /\ (forall prog command rest,
        command ∉ commands ->
        main cwd (prog :: command :: rest) w
        = (Exited 1, printErr (DiagText ("Unknown command "%bytes ++ command ++ [LF])) w))
  /\ (forall prog rest,
        (length rest < 2)%nat \/ rest !! 0%nat <> Some "-p"%bytes ->
        main cwd (prog :: "cat-file"%bytes :: rest) w
        = (Exited 1,
           printErr (DiagError "Error: "%bytes
                       (errorString "usage: got cat-file -p [<args>...]"%bytes)) w))
  /\ (forall prog rest,
        (length rest < 2)%nat ->
        main cwd (prog :: "hash-object"%bytes :: rest) w
        = (Exited 1,
           printErr (DiagError "Error: "%bytes
                       (errorString "usage: got hash-object [<args>...]"%bytes)) w))
  /\ (forall prog flag filepath rest,
        flag <> "-w"%bytes ->
        main cwd (prog :: "hash-object"%bytes :: flag :: filepath :: rest) w
        = (Exited 1,
           printErr (DiagError "Error: "%bytes
                       (errorString "usage: got hash-object -w [<args>...]"%bytes)) w))
  /\ (forall prog,
        main cwd [prog; "ls-tree"%bytes] w
        = (Exited 1,
           printErr (DiagError "Error: "%bytes
                       (errorString "usage: got ls-tree [<args>...] [hash]"%bytes)) w)).
Proof.
  split; [|split; [|split; [|split; [|split]]]].
  - intros Args Hlen. unfold main.
    destruct (Nat.ltb_spec (length Args) 2); [reflexivity | lia].
  - intros prog command rest Hc. unfold main, argAt, commands in *.
    change (length (prog :: command :: rest) <? 2)%nat with false.
    cbn [lookup list_lookup].
    rewrite !not_elem_of_cons in Hc. destruct Hc as (H1 & H2 & H3 & H4 & H5 & _).
    rewrite !bool_decide_eq_false_2 by assumption. reflexivity.
  - intros prog rest Hrest. rewrite main_cat_file. unfold cmdCatFile, argAt.
    destruct rest as [|flag [|hash rest]]; try reflexivity.
    change (length (prog :: "cat-file"%bytes :: flag :: hash :: rest) <? 4)%nat with false.
    cbn [lookup list_lookup]. destruct Hrest as [Hlen | Hflag]; [cbn in Hlen; lia|].
    cbn [lookup list_lookup] in Hflag.
    rewrite bool_decide_eq_false_2 by congruence. reflexivity.
  - intros prog rest Hlen. rewrite main_hash_object. unfold cmdHashObject.
    destruct rest as [|flag [|filepath rest]]; try reflexivity. cbn in Hlen. lia.
  - intros prog flag filepath rest Hflag. rewrite main_hash_object. unfold cmdHashObject, argAt.
    change (length (prog :: "hash-object"%bytes :: flag :: filepath :: rest) <? 4)%nat
      with false.
    cbn [lookup list_lookup]. rewrite bool_decide_eq_false_2 by exact Hflag. reflexivity.
  - intros prog. rewrite main_ls_tree. reflexivity.
Qed.

End Rejected.

(** ** hash-object before writeObject *)

Lemma MkdirAll_printOut (path text : bytes) (w : World) :
  MkdirAll path (printOut text w)
  = (fst (MkdirAll path w), printOut text (snd (MkdirAll path w))).
Proof.
  unfold MkdirAll. cbn [fs printOut]. destruct (os.MkdirAll path (fs w)). reflexivity.
Qed.

Lemma WriteFile_printOut (name data text : bytes) (w : World) :
  WriteFile name data (printOut text w)
  = (fst (WriteFile name data w), printOut text (snd (WriteFile name data w))).
Proof.
  unfold WriteFile. cbn [fs printOut]. destruct (os.WriteFile name data (fs w)). reflexivity.
Qed.

Lemma MkdirAll_stdout (path : bytes) (w : World) : stdout (snd (MkdirAll path w)) = stdout w.
Proof. unfold MkdirAll. destruct (os.MkdirAll path (fs w)). reflexivity. Qed.

Lemma WriteFile_stdout (name data : bytes) (w : World) :
  stdout (snd (WriteFile name data w)) = stdout w.
Proof. unfold WriteFile. destruct (os.WriteFile name data (fs w)). reflexivity. Qed.

Section HashObjectInline.

Context `{Zlib}.

(** The stored part of the in-line [hash-object] is [writeObject]: after
    the file is read, the in-line code ends as [writeObject "blob"] does,
    with the address printed before the store is touched. *)
Lemma inline_store (b : bytes) (w1 : World) :
  let hash := computeHash (fullContent "blob"%bytes b) in
  let stored := writeObject "blob"%bytes b w1 in
  match MkdirAll (".git/objects/"%bytes ++ take 2 hash) (printOut (hash ++ [LF]) w1) with
  | (Err e, w3) => handleError e w3
  | (Ok _, w3) =>
      match WriteFile ((".git/objects/"%bytes ++ take 2 hash) ++ "/"%bytes ++ drop 2 hash)
              (zlib_compress (fullContent "blob"%bytes b)) w3 with
      | (Err e, w4) => handleError e w4
      | (Ok _, w4) => (Returned, w4)
      end
  end
  = match fst stored with
    | Ok _ => (Returned, printOut (hash ++ [LF]) (snd stored))
    | Err e => handleError e (printOut (hash ++ [LF]) (snd stored))
    end.
Proof.
  intros hash stored. unfold stored, writeObject. fold hash.
  change (".git/objects/"%bytes ++ take 2 hash) with (objectDir hash).
  change (objectDir hash ++ "/"%bytes ++ drop 2 hash) with (objectPath hash).
  rewrite MkdirAll_printOut.
  destruct (MkdirAll (objectDir hash) w1) as [[[]|e] w3]; cbn [fst snd]; [|reflexivity].
  rewrite WriteFile_printOut.
  destruct (WriteFile (objectPath hash) _ w3) as [[[]|e] w4]; reflexivity.
Qed.

(** X23. The two revisions of [hash-object] differ in one thing only.  On every
    argument list they end with the same status, the same files and
    directories, the same disk operations and the same diagnostics, and
    where they return they have printed the same; but where the file was
    read and the object could not be stored, [writeObject]'s revision has
    printed nothing and the in-line revision has printed the address. *)
Theorem hash_object_revisions_agree (Args : list bytes) (w : World) :
  let new := cmdHashObject Args w in
  let old := cmdHashObjectInline Args w in
  fst old = fst new
  /\ fs (snd old) = fs (snd new)
  /\ disk (snd old) = disk (snd new)
  /\ stderr (snd old) = stderr (snd new)
  /\ (fst new = Returned -> snd old = snd new)
  /\ (forall filepath b,
        (4 <= length Args)%nat ->
        Args !! 2%nat = Some "-w"%bytes ->
        Args !! 3%nat = Some filepath ->
        os.files (fs w) !! filepath = Some b ->
        fst new <> Returned ->
        stdout (snd new) = stdout w
        /\ stdout (snd old)
           = stdout w ++ computeHash (fullContent "blob"%bytes b) ++ [LF]).
Proof.
  cbn zeta. unfold cmdHashObject, cmdHashObjectInline, argAt.
  destruct (Nat.ltb_spec (length Args) 4) as [Hlt|Hge].
  { do 4 (split; [reflexivity|]). split; [reflexivity|]. intros; lia. }
  destruct (Args !! 2%nat) as [flag|] eqn:H2.
  2:{ do 4 (split; [reflexivity|]). split; [reflexivity|]. intros; discriminate. }
  case_bool_decide as Hflag; cbn [negb].
  2:{ do 4 (split; [reflexivity|]). split; [reflexivity|].
      intros fp b' _ [= Hw]. congruence. }
  destruct (Args !! 3%nat) as [filepath|] eqn:H3.
  2:{ do 4 (split; [reflexivity|]). split; [reflexivity|]. intros; discriminate. }
  unfold ReadFile. destruct (os.ReadFile filepath (fs w)) as [b|e] eqn:Hread; cbv beta iota.
  2:{ do 4 (split; [reflexivity|]). split; [reflexivity|].
      intros fp b' _ _ [= <-] Hf.
      unfold os.ReadFile in Hread. rewrite Hf in Hread. discriminate. }
  cbn zeta.
  change ("blob "%bytes ++ fmt.Itoa (length b) ++ [NUL])
    with (objectHeader "blob"%bytes b).
  change (objectHeader "blob"%bytes b ++ b) with (fullContent "blob"%bytes b).
  rewrite (inline_store b (logOp (OpReadFile filepath) w)). cbn zeta.
  pose proof (writeObject_storeGrew "blob"%bytes b (logOp (OpReadFile filepath) w))
    as (_ & _ & _ & Hout & _).
  destruct (writeObject "blob"%bytes b (logOp (OpReadFile filepath) w)) as [[hash|e] w2] eqn:Hw;
    cbn [fst snd] in *.
  - apply writeObject_hash in Hw as ->.
    do 4 (split; [reflexivity|]). split; [reflexivity|].
    intros fp b' _ _ _ _ Hne. contradiction.
  - do 4 (split; [reflexivity|]). split; [discriminate|].
    intros fp b' _ _ [= <-] Hf _.
    unfold os.ReadFile in Hread. rewrite Hf in Hread. injection Hread as ->.
    cbn [stdout printErr printOut handleError snd]. rewrite Hout. split; reflexivity.
Qed.

End HashObjectInline.

(** With a file where [.git] should be, the in-line revision prints the
    address of an object it does not store. *)
Example hash_object_inline_prints_unstored_address :
  cmdHashObjectInline (H := framing_zlib)
    ["got"%bytes; "hash-object"%bytes; "-w"%bytes; "notes.txt"%bytes] blockedWorld
  = (Exited 1,
     mkWorld (fs blockedWorld)
       [OpReadFile "notes.txt"%bytes; OpMkdirAll (objectDir helloAddress)]
       (helloAddress ++ [LF])
       [DiagError "Error: "%bytes (PathError "mkdir"%bytes ".git"%bytes ENOTDIR)]).
Proof. vm_compute. reflexivity. Qed.

(** ** ls-tree on a tree that breaks off *)

Section Truncated.

Context `{Zlib}.

(** X24. [ls-tree] prints all entries or none: on an object whose payload is
    whole entries followed by the beginning of another, it ends with exit
    status 1 and the error of the parse loop, and prints none of the whole
    entries, with and without [--name-only]. *)
Theorem ls_tree_prints_nothing_of_a_truncated_tree (cwd : Node)
    (prog hash stored header rest : bytes) (es : list rawEntry) (err : error) (w : World) :
  length hash = 40%nat ->
  os.files (fs w) !! objectPath hash = Some stored ->
  zlib_decompress stored = Some (header ++ NUL :: (flat_map entryBytes es ++ rest)) ->
  NUL ∉ header ->
  Forall wellFormed es ->
  truncated rest err ->
  main cwd [prog; "ls-tree"%bytes; hash] w
  = (Exited 1, printErr (DiagError "Error: "%bytes err) (logOp (OpReadFile (objectPath hash)) w))
  /\ main cwd [prog; "ls-tree"%bytes; "--name-only"%bytes; hash] w
     = (Exited 1,
        printErr (DiagError "Error: "%bytes err) (logOp (OpReadFile (objectPath hash)) w)).
Proof.
  intros Hlen Hf Hz Hn Hwf Ht.
  assert (forall nameOnly,
            lsTree nameOnly hash w
            = (Exited 1,
               printErr (DiagError "Error: "%bytes err)
                 (logOp (OpReadFile (objectPath hash)) w))) as Hls.
  { intros nameOnly. unfold lsTree. rewrite Hlen. cbn [Nat.eqb negb].
    rewrite (readContent_of_file _ _ _ _ _ Hf Hz), afterHeader_split by exact Hn.
    rewrite parseEntries_entries by exact Hwf.
    apply truncated_parseEntry in Ht as [Hne Hstep].
    rewrite parseEntries_cons by exact Hne. rewrite Hstep. reflexivity. }
  split.
  - rewrite main_ls_tree_hash by (intros ->; discriminate Hlen). apply Hls.
  - rewrite main_ls_tree_name_only. apply Hls.
Qed.

End Truncated.

Lemma ls_tree_prints_nothing_of_a_truncated_tree_witness :
  length mislabelledAddress = 40%nat
  /\ Forall wellFormed truncatedEntries
  /\ truncated "100644"%bytes (errorString "malformed entry: missing mode"%bytes)
  /\ main (H := framing_zlib) (Directory (Ok []))
       ["got"%bytes; "ls-tree"%bytes; mislabelledAddress] truncatedWorld
     = (Exited 1,
        printErr (DiagError "Error: "%bytes (errorString "malformed entry: missing mode"%bytes))
          (logOp (OpReadFile (objectPath mislabelledAddress)) truncatedWorld)).
Proof.
  assert (Forall wellFormed truncatedEntries) as Hwf.
  { apply List.Forall_cons; [|apply List.Forall_nil]. unfold wellFormed.
    split; [|split]; [apply (bool_decide_unpack _); vm_compute; exact I..|].
    vm_compute. reflexivity. }
  assert (truncated "100644"%bytes (errorString "malformed entry: missing mode"%bytes)) as Ht.
  { apply missing_mode; [discriminate|]. apply (bool_decide_unpack _). vm_compute. exact I. }
  split; [reflexivity|]. split; [exact Hwf|]. split; [exact Ht|].
  refine (proj1 (ls_tree_prints_nothing_of_a_truncated_tree (H := framing_zlib)
                   (Directory (Ok [])) "got"%bytes mislabelledAddress
                   (framing_compress
                      ("tree 40"%bytes ++ [NUL] ++ flat_map entryBytes truncatedEntries
                       ++ "100644"%bytes))
                   "tree 40"%bytes "100644"%bytes truncatedEntries _ truncatedWorld
                   eq_refl _ eq_refl _ Hwf Ht)).
  - vm_compute. reflexivity.
  - apply (bool_decide_unpack _). vm_compute. exact I.
Defined.
